(** * OTP task manager: a shallow embedding of [api.py]

    The development follows the layout of the Python module:
    - the data model ([TaskStatus], [ServiceResponse]);
    - the Redis client the module talks to, as a timed key/hash store;
    - [RedisManager] (create/get/update/delete of a task hash);
    - the OTP services and [OTPService.send_request];
    - [TaskManager]: the control commands and the background Runner
      [_run_task], the latter as a small-step machine so that control
      commands and clock ticks can be interleaved with it.

    Conventions.  Time is an integer number of seconds.  Redis stores
    strings; the model keeps, for every stored string, the Python value
    whose rendering it is ([rval]).  What the outside world does (the
    HTTP exchange of a request, a Redis call that fails, the uuid drawn
    for a task id) is an input of the step that consumes it. *)

From stdpp Require Import gmap strings list fin_maps.
From Stdlib Require Import ZArith Lia.

Local Open Scope Z_scope.

(* ================================================================== *)
(** ** Data model *)
(* ================================================================== *)

(** [class TaskStatus(Enum)] and its [.value]. *)
Inductive TaskStatus := PENDING | RUNNING | STOPPED | COMPLETED | ERROR.

Definition status_value (s : TaskStatus) : string :=
  match s with
  | PENDING => "pending"
  | RUNNING => "running"
  | STOPPED => "stopped"
  | COMPLETED => "completed"
  | ERROR => "error"
  end.

(** One entry of [services_stats]: [{"success": n, "failed": m}]. *)
Record svc_stat := { success_count : Z; failed_count : Z }.

Global Instance svc_stat_eq_dec : EqDecision svc_stat.
Proof. solve_decision. Defined.

(** The Python values that occur in a task dictionary.  [PTime t] is the
    string [datetime.isoformat()] of the instant [t]. *)
Inductive pyval :=
| PNone
| PStr (s : string)
| PInt (n : Z)
| PTime (t : Z)
| PDict (d : gmap string svc_stat).

Global Instance pyval_eq_dec : EqDecision pyval.
Proof. solve_decision. Defined.

(** A value of a Redis hash field: always a string in Redis; [RInt n] is
    [str(n)], [RTime t] the isoformat text of [t], [RJson d] is
    [json.dumps(d)], [RStr s] any other text (the empty string included). *)
Inductive rval :=
| RStr (s : string)
| RInt (n : Z)
| RTime (t : Z)
| RJson (d : gmap string svc_stat).

Global Instance rval_eq_dec : EqDecision rval.
Proof. solve_decision. Defined.

(** Outcome of a call that may raise; [Raise e] carries [str(e)]. *)
Inductive result (A : Type) :=
| Ok (a : A)
| Raise (e : string).
Arguments Ok {A} a.
Arguments Raise {A} e.

(** [@dataclass ServiceResponse]; [success] is computed by
    [__post_init__] as [error is None]. *)
Record ServiceResponse := {
  service_name : string;
  status_code : option Z;
  response_data : option string;
  error : option string;
  success : bool
}.

Definition mkServiceResponse (name : string) (code : option Z)
    (data : option string) (err : option string) : ServiceResponse :=
  {| service_name := name; status_code := code; response_data := data;
     error := err;
     success := match err with None => true | Some _ => false end |}.

(* ================================================================== *)
(** ** The Redis client *)
(* ================================================================== *)

(** The commands of the Redis client used by [RedisManager], on a store
    of hashes with an optional expiry deadline per key.  A key whose
    deadline has passed is gone for every command. *)
Module Redis.

Record entry := { e_hash : gmap string rval; e_expiry : option Z }.

Definition live (now : Z) (e : entry) : bool :=
  match e_expiry e with
  | Some deadline => now <? deadline
  | None => true
  end.

(** The entry under [key] as the server sees it at time [now]. *)
Definition find (now : Z) (db : gmap string entry) (key : string)
    : option entry :=
  match db !! key with
  | Some e => if live now e then Some e else None
  | None => None
  end.

(** HGETALL: the empty mapping for a missing key. *)
Definition hgetall (now : Z) (db : gmap string entry) (key : string)
    : gmap string rval :=
  match find now db key with
  | Some e => e_hash e
  | None => ∅
  end.

(** HSET with a mapping: the given fields overwrite, the others stay;
    an existing key keeps its deadline, a new key has none. *)
Definition hset (now : Z) (db : gmap string entry) (key : string)
    (mapping : gmap string rval) : gmap string entry :=
  match find now db key with
  | Some e =>
      <[key := {| e_hash := mapping ∪ e_hash e; e_expiry := e_expiry e |}]> db
  | None =>
      <[key := {| e_hash := mapping; e_expiry := None |}]> db
  end.

(** EXPIRE: sets the deadline of an existing key. *)
Definition expire (now : Z) (db : gmap string entry) (key : string)
    (seconds : Z) : gmap string entry :=
  match find now db key with
  | Some e =>
      <[key := {| e_hash := e_hash e; e_expiry := Some (now + seconds) |}]> db
  | None => db
  end.

(** DEL: the number of keys removed. *)
Definition del (now : Z) (db : gmap string entry) (key : string)
    : gmap string entry * Z :=
  match find now db key with
  | Some _ => (delete key db, 1)
  | None => (delete key db, 0)
  end.

(** KEYS with the pattern [prefix*], for a [prefix] without glob
    characters: the keys present at [now] that start with [prefix].  The
    server returns them in no particular order; here it is the order in
    which the store enumerates them. *)
Definition keys (now : Z) (db : gmap string entry) (prefix : string)
    : list string :=
  omap (λ ke : string * entry,
          if live now ke.2 && String.prefix prefix ke.1
          then Some ke.1 else None)
       (map_to_list db).

End Redis.

(* ================================================================== *)
(** ** Python strings *)
(* ================================================================== *)

(** [s.replace(old, "")] for a non-empty [old]: the occurrences of
    [old], found from left to right, are dropped.  [skip] is the number
    of characters of the occurrence at hand still to drop. *)
Fixpoint remove_from (old : string) (skip : nat) (s : string) : string :=
  match s with
  | EmptyString => EmptyString
  | String c s' =>
      match skip with
      | S n => remove_from old n s'
      | O =>
          if String.prefix old s
          then remove_from old (String.length old - 1) s'
          else String c (remove_from old 0 s')
      end
  end.

Definition str_remove (s old : string) : string := remove_from old 0 s.

(** [old in s] *)
Definition occurs (old s : string) : Prop := ∃ a b, s = a +:+ old +:+ b.

(* ================================================================== *)
(** ** RedisManager *)
(* ================================================================== *)

Module RedisManager.

Definition task_prefix : string := "otp:task:".

Definition _get_key (task_id : string) : string := task_prefix +:+ task_id.

(** The loop that renders a dictionary for HSET: a dict through
    [json.dumps], [None] as the empty string, anything else by [str]. *)
Definition to_redis_value (v : pyval) : rval :=
  match v with
  | PDict d => RJson d
  | PNone => RStr ""
  | PStr s => RStr s
  | PInt n => RInt n
  | PTime t => RTime t
  end.

Definition to_redis (d : gmap string pyval) : gmap string rval :=
  to_redis_value <$> d.

Definition create_task (now : Z) (db : gmap string Redis.entry)
    (task_id phone_number : string) (interval : Z)
    : gmap string Redis.entry * gmap string pyval :=
  let task_data : gmap string pyval :=
    list_to_map
      [ ("task_id", PStr task_id);
        ("phone_number", PStr phone_number);
        ("interval", PInt interval);
        ("status", PStr (status_value PENDING));
        ("created_at", PTime now);
        ("started_at", PNone);
        ("stopped_at", PNone);
        ("iterations", PInt 0);
        ("total_requests", PInt 0);
        ("successful_requests", PInt 0);
        ("failed_requests", PInt 0);
        ("last_activity", PNone);
        ("services_stats", PDict ∅) ] in
  let key := _get_key task_id in
  let db1 := Redis.hset now db key (to_redis task_data) in
  let db2 := Redis.expire now db1 key 86400 in
  (db2, task_data).

Definition int_keys : list string :=
  ["iterations"; "total_requests"; "successful_requests"; "failed_requests";
   "interval"].

(** Python truthiness of a stored string ([if v]). *)
Definition truthy (v : rval) : bool :=
  match v with
  | RStr "" => false
  | _ => true
  end.

(** One round of the parsing loop of [get_task].  [None] stands for a
    field whose text is of a shape the program never stores under that
    key (an integer field holding a JSON document, say): what [int] or
    [json.loads] make of it is outside the model. *)
Definition parse_field (k : string) (v : rval) : option pyval :=
  if bool_decide (k ∈ ["services_stats"]) then
    if truthy v then
      match v with
      | RJson d => Some (PDict d)
      | _ => None
      end
    else Some (PDict ∅)
  else if bool_decide (k ∈ int_keys) then
    if truthy v then
      match v with
      | RInt n => Some (PInt n)
      | _ => None
      end
    else Some (PInt 0)
  else
    match v with
    | RStr s =>
        if bool_decide (s = "None" ∨ s = "") then Some PNone else Some (PStr s)
    | RTime t => Some (PTime t)
    | RInt _ | RJson _ => None
    end.

Definition parses (k : string) (v : rval) : Prop := is_Some (parse_field k v).

Global Instance parses_dec k v : Decision (parses k v).
Proof. unfold parses. apply _. Defined.

Definition get_task (now : Z) (db : gmap string Redis.entry) (task_id : string)
    : result (option (gmap string pyval)) :=
  let data := Redis.hgetall now db (_get_key task_id) in
  if bool_decide (data = ∅) then Ok None
  else if bool_decide (map_Forall parses data)
       then Ok (Some (map_imap parse_field data))
       else Raise "ValueError".

Definition update_task (now : Z) (db : gmap string Redis.entry)
    (task_id : string) (updates : gmap string pyval)
    : gmap string Redis.entry :=
  Redis.hset now db (_get_key task_id) (to_redis updates).

Definition delete_task (now : Z) (db : gmap string Redis.entry)
    (task_id : string) : gmap string Redis.entry * bool :=
  let '(db', result) := Redis.del now db (_get_key task_id) in
  (db', 0 <? result).

Definition get_all_tasks (now : Z) (db : gmap string Redis.entry)
    : result (list (gmap string pyval)) :=
  let keys := Redis.keys now db task_prefix in       (* [keys("otp:task:*")] *)
  foldl (λ (tasks : result (list (gmap string pyval))) key,
           match tasks with
           | Raise e => Raise e
           | Ok tasks =>
               let task_id := str_remove key task_prefix in
               match get_task now db task_id with
               | Raise e => Raise e
               | Ok None => Ok tasks
               | Ok (Some task) => Ok (tasks ++ [task])
               end
           end)
        (Ok []) keys.

End RedisManager.

Import RedisManager.

(* ================================================================== *)
(** ** OTP services *)
(* ================================================================== *)

(** The three subclasses of [OTPService]; only [name] matters to the
    task manager. *)
Inductive service := HungamaService | ShemarooMeService | UnacademyService.

Definition name (s : service) : string :=
  match s with
  | HungamaService => "Hungama"
  | ShemarooMeService => "ShemarooMe"
  | UnacademyService => "Unacademy"
  end.

(** The exception classes [send_request] tells apart, in the order of
    its [except] clauses. *)
Inductive exn_class := TimeoutException | RequestError | OtherException.

(** What the body of the [try] in [send_request] does: the POST and the
    parsing of the response return a status code and data, or one of
    them raises. *)
Inductive http_outcome :=
| Returned (code : Z) (data : string)
| Raised (c : exn_class) (msg : string).

Definition send_request (svc : service) (o : http_outcome) : ServiceResponse :=
  match o with
  | Returned code data =>
      mkServiceResponse (name svc) (Some code) (Some data) None
  | Raised TimeoutException _ =>
      mkServiceResponse (name svc) None None (Some "Request timed out")
  | Raised RequestError e =>
      mkServiceResponse (name svc) None None (Some ("Request failed: " +:+ e))
  | Raised OtherException e =>
      mkServiceResponse (name svc) None None (Some e)
  end.

(* ================================================================== *)
(** ** TaskManager *)
(* ================================================================== *)

Module TaskManager.

Definition SERVICES : list service :=
  [HungamaService; ShemarooMeService; UnacademyService].

(** [generate_task_id]: [uid] is [uuid.uuid4().hex]. *)
Definition generate_task_id (uid : string) : string :=
  "taskid-" +:+ String.substring 0 4 uid +:+ "-" +:+ String.substring 4 4 uid.

(** Where a Runner thread stands in [_run_task]. *)
Inductive pc :=
| AtStart                     (* about to write status=running *)
| AtClient                    (* entering [with httpx.Client(...)] *)
| AtWhile                     (* [while not stop_event.is_set()] *)
| AtFor (rest : list service) (* head of the [for], services left *)
| AtSend (svc : service) (rest : list service)
| AtGet (rest : list service) (response : ServiceResponse)
| AtUpdate (rest : list service) (response : ServiceResponse)
    (task : gmap string pyval)
| AtWait (rest : list service)
| AtExcept (e : string)       (* in the [except Exception as e] clause *)
| AtFinally (pending : option string)
| Finished
| Died (e : string).          (* an exception left the thread *)

(** The arguments and local variables of one [_run_task] call. *)
Record runner := {
  r_task_id : string;
  r_phone_number : string;
  r_interval : Z;
  r_stop_event : nat;
  r_iteration : Z;
  r_services_stats : gmap string svc_stat;
  r_total_requests : Z;
  r_successful : Z;
  r_failed : Z;
  r_pc : pc
}.

Definition set_pc (p : pc) (r : runner) : runner :=
  {| r_task_id := r_task_id r; r_phone_number := r_phone_number r;
     r_interval := r_interval r; r_stop_event := r_stop_event r;
     r_iteration := r_iteration r; r_services_stats := r_services_stats r;
     r_total_requests := r_total_requests r; r_successful := r_successful r;
     r_failed := r_failed r; r_pc := p |}.

Definition set_locals (iteration : Z) (stats : gmap string svc_stat)
    (total successful failed : Z) (p : pc) (r : runner) : runner :=
  {| r_task_id := r_task_id r; r_phone_number := r_phone_number r;
     r_interval := r_interval r; r_stop_event := r_stop_event r;
     r_iteration := iteration; r_services_stats := stats;
     r_total_requests := total; r_successful := successful;
     r_failed := failed; r_pc := p |}.

(** The whole process: the clock, the Redis store, the
    [threading.Event] objects (by handle), [TaskManager.active_tasks]
    and the Runner threads. *)
Record state := {
  clock : Z;
  redis : gmap string Redis.entry;
  events : list bool;
  active_tasks : gmap string nat;
  threads : list runner
}.

Definition initial : state :=
  {| clock := 0; redis := ∅; events := []; active_tasks := ∅; threads := [] |}.

(** The dictionaries returned by the control commands.  The three error
    dictionaries are [{"error": "Task <id> not found"}],
    [{"error": "Task <id> is not running (status: <status>)"}] and
    [{"error": "Cannot delete running task. Stop it first."}]. *)
Inductive reply :=
| NotFound (task_id : string)
| NotRunning (task_id : string) (status : pyval)
| CannotDeleteRunning
| Done (task_id : string) (status : string).

(** The control commands [start_task], [stop_task] and [delete_task],
    each run from its first line to its return with nothing in between:
    Runner steps and clock ticks come between commands, not inside one.
    [uid] is the uuid that [generate_task_id] draws. *)
Definition start_task (uid phone_number : string) (interval : Z) (σ : state)
    : state * reply :=
  let task_id := generate_task_id uid in
  let '(db, _) :=
    create_task (clock σ) (redis σ) task_id phone_number interval in
  let stop_event := length (events σ) in
  let thread :=
    {| r_task_id := task_id; r_phone_number := phone_number;
       r_interval := interval; r_stop_event := stop_event;
       r_iteration := 0; r_services_stats := ∅;
       r_total_requests := 0; r_successful := 0; r_failed := 0;
       r_pc := AtStart |} in
  ({| clock := clock σ; redis := db;
      events := events σ ++ [false];
      active_tasks := <[task_id := stop_event]> (active_tasks σ);
      threads := threads σ ++ [thread] |},
   Done task_id "started").

Definition stop_task (task_id : string) (σ : state) : state * result reply :=
  match get_task (clock σ) (redis σ) task_id with
  | Raise e => (σ, Raise e)
  | Ok None => (σ, Ok (NotFound task_id))
  | Ok (Some task) =>
      match task !! "status" with        (* [task["status"]] *)
      | None => (σ, Raise "KeyError: 'status'")
      | Some status =>
          if bool_decide (status ≠ PStr (status_value RUNNING))
          then (σ, Ok (NotRunning task_id status))
          else
            let '(evs, act) :=
              match active_tasks σ !! task_id with
              | Some stop_event =>
                  (<[stop_event := true]> (events σ),
                   delete task_id (active_tasks σ))
              | None => (events σ, active_tasks σ)
              end in
            let db :=
              update_task (clock σ) (redis σ) task_id
                (list_to_map
                   [ ("status", PStr (status_value STOPPED));
                     ("stopped_at", PTime (clock σ)) ]) in
            ({| clock := clock σ; redis := db; events := evs;
                active_tasks := act; threads := threads σ |},
             Ok (Done task_id "stopped"))
      end
  end.

Definition delete_task (task_id : string) (σ : state)
    : state * result reply :=
  match get_task (clock σ) (redis σ) task_id with
  | Raise e => (σ, Raise e)
  | Ok None => (σ, Ok (NotFound task_id))
  | Ok (Some task) =>
      match task !! "status" with
      | None => (σ, Raise "KeyError: 'status'")
      | Some status =>
          if bool_decide (status = PStr (status_value RUNNING))
          then (σ, Ok CannotDeleteRunning)
          else
            let '(db, _) := RedisManager.delete_task (clock σ) (redis σ) task_id in
            ({| clock := clock σ; redis := db; events := events σ;
                active_tasks := active_tasks σ; threads := threads σ |},
             Ok (Done task_id "deleted"))
      end
  end.

(** *** The Runner, [_run_task] *)

(** [stop_event.is_set()]. *)
Definition is_set (evs : list bool) (stop_event : nat) : bool :=
  default false (evs !! stop_event).

(** What the outside world does during one step of a Runner: nothing
    worth noting, the HTTP exchange of a [send_request], or a failure of
    the Redis call (or of the client construction) the step performs. *)
Inductive env :=
| Quiet
| Http (o : http_outcome)
| Fault (e : string).

(** [{s(None, config).name: {"success": 0, "failed": 0} for s in SERVICES}] *)
Definition init_stats : gmap string svc_stat :=
  list_to_map
    ((λ s, (name s, {| success_count := 0; failed_count := 0 |})) <$> SERVICES).

(** [services_stats[service.name]["success"] += 1], or ["failed"]. *)
Definition count_response (svc : service) (response : ServiceResponse)
    (stats : gmap string svc_stat) : result (gmap string svc_stat) :=
  match stats !! name svc with
  | None => Raise ("KeyError: " +:+ name svc)
  | Some s =>
      Ok (<[name svc :=
              if success response
              then {| success_count := success_count s + 1;
                      failed_count := failed_count s |}
              else {| success_count := success_count s;
                      failed_count := failed_count s + 1 |}]> stats)
  end.

(** [task.get(k, d)] *)
Definition get_or (task : gmap string pyval) (k : string) (d : pyval) : pyval :=
  default d (task !! k).

(** [task.get(k, 0) + n] *)
Definition get_plus (task : gmap string pyval) (k : string) (n : Z)
    : result Z :=
  match get_or task k (PInt 0) with
  | PInt m => Ok (m + n)
  | _ => Raise "TypeError"
  end.

(** The dictionary passed to [update_task] after each request, given
    the three counters computed from the record read. *)
Definition progress_dict (now iteration total successful failed : Z)
    (stats : gmap string svc_stat) : gmap string pyval :=
  list_to_map
    [ ("iterations", PInt iteration);
      ("total_requests", PInt total);
      ("successful_requests", PInt successful);
      ("failed_requests", PInt failed);
      ("last_activity", PTime now);
      ("services_stats", PDict stats) ].

Definition progress_update (now iteration : Z) (task : gmap string pyval)
    (response : ServiceResponse) (stats : gmap string svc_stat)
    : result (gmap string pyval) :=
  match get_plus task "total_requests" 1,
        get_plus task "successful_requests" (if success response then 1 else 0),
        get_plus task "failed_requests" (if success response then 0 else 1) with
  | Ok total, Ok successful, Ok failed =>
      Ok (progress_dict now iteration total successful failed stats)
  | _, _, _ => Raise "TypeError"
  end.

(** The dictionary written by the [except] clause of [_run_task]. *)
Definition error_dict (now : Z) (e : string) : gmap string pyval :=
  list_to_map
    [ ("status", PStr (status_value ERROR));
      ("stopped_at", PTime now);
      ("last_activity", PStr ("Error: " +:+ e)) ].

(** One step of a Runner thread.  The result is the thread, the store
    and the registry after the step. *)
Definition _run_task_step (ev : env) (now : Z) (evs : list bool) (r : runner)
    (db : gmap string Redis.entry) (act : gmap string nat)
    : runner * gmap string Redis.entry * gmap string nat :=
  match r_pc r with
  | AtStart =>
      (* outside the [try]: a failure here leaves the thread at once *)
      match ev with
      | Fault e => (set_pc (Died e) r, db, act)
      | _ =>
          (set_locals 0 init_stats (r_total_requests r) (r_successful r)
             (r_failed r) AtClient r,
           update_task now db (r_task_id r)
             (list_to_map
                [ ("status", PStr (status_value RUNNING));
                  ("started_at", PTime now) ]),
           act)
      end
  | AtClient =>
      match ev with
      | Fault e => (set_pc (AtExcept e) r, db, act)
      | _ => (set_pc AtWhile r, db, act)
      end
  | AtWhile =>
      if is_set evs (r_stop_event r)
      then (set_pc (AtFinally None) r, db, act)
      else (set_locals (r_iteration r + 1) (r_services_stats r) 0 0 0
              (AtFor SERVICES) r, db, act)
  | AtFor [] => (set_pc AtWhile r, db, act)
  | AtFor (svc :: rest) =>
      if is_set evs (r_stop_event r)
      then (set_pc AtWhile r, db, act)            (* break *)
      else (set_pc (AtSend svc rest) r, db, act)
  | AtSend svc rest =>
      match ev with
      | Http o =>
          let response := send_request svc o in
          let total := r_total_requests r + 1 in
          let successful :=
            if success response then r_successful r + 1 else r_successful r in
          let failed :=
            if success response then r_failed r else r_failed r + 1 in
          match count_response svc response (r_services_stats r) with
          | Ok stats =>
              (set_locals (r_iteration r) stats total successful failed
                 (AtGet rest response) r, db, act)
          | Raise e => (set_pc (AtExcept e) r, db, act)
          end
      | _ => (r, db, act)
      end
  | AtGet rest response =>
      match ev with
      | Fault e => (set_pc (AtExcept e) r, db, act)
      | _ =>
          match get_task now db (r_task_id r) with
          | Raise e => (set_pc (AtExcept e) r, db, act)
          | Ok None => (set_pc (AtWait rest) r, db, act)
          | Ok (Some task) => (set_pc (AtUpdate rest response task) r, db, act)
          end
      end
  | AtUpdate rest response task =>
      match progress_update now (r_iteration r) task response
              (r_services_stats r) with
      | Raise e => (set_pc (AtExcept e) r, db, act)
      | Ok updates =>
          match ev with
          | Fault e => (set_pc (AtExcept e) r, db, act)
          | _ =>
              (set_pc (AtWait rest) r,
               update_task now db (r_task_id r) updates, act)
          end
      end
  | AtWait rest =>
      (* [if not stop_event.is_set(): stop_event.wait(interval)] *)
      (set_pc (AtFor rest) r, db, act)
  | AtExcept e =>
      match ev with
      | Fault e' => (set_pc (AtFinally (Some e')) r, db, act)
      | _ =>
          (set_pc (AtFinally None) r,
           update_task now db (r_task_id r) (error_dict now e), act)
      end
  | AtFinally pending =>
      let act' :=
        if bool_decide (is_Some (act !! r_task_id r))
        then delete (r_task_id r) act else act in
      (set_pc (match pending with None => Finished | Some e => Died e end) r,
       db, act')
  | Finished => (r, db, act)
  | Died _ => (r, db, act)
  end.

(** *** The process as a whole *)

Inductive label :=
| Tick (dt : N)                                   (* time passes *)
| Start (uid phone_number : string) (interval : Z) (* [start_task] *)
| Stop (task_id : string)                          (* [stop_task] *)
| Delete (task_id : string)                        (* [delete_task] *)
| Run (thread : nat) (ev : env).                   (* a Runner moves *)

Definition run_thread (i : nat) (ev : env) (σ : state) : state :=
  match threads σ !! i with
  | None => σ
  | Some r =>
      let '(r', db, act) :=
        _run_task_step ev (clock σ) (events σ) r (redis σ) (active_tasks σ) in
      {| clock := clock σ; redis := db; events := events σ;
         active_tasks := act; threads := <[i := r']> (threads σ) |}
  end.

Definition step (σ : state) (l : label) : state :=
  match l with
  | Tick dt =>
      {| clock := clock σ + Z.of_N dt; redis := redis σ; events := events σ;
         active_tasks := active_tasks σ; threads := threads σ |}
  | Start uid phone_number interval =>
      fst (start_task uid phone_number interval σ)
  | Stop task_id => fst (stop_task task_id σ)
  | Delete task_id => fst (delete_task task_id σ)
  | Run i ev => run_thread i ev σ
  end.

Definition exec (tr : list label) (σ : state) : state := foldl step σ tr.

(** The task ids drawn by the [start_task] calls of a trace. *)
Definition started (tr : list label) : list string :=
  omap (λ l, match l with
             | Start uid _ _ => Some (generate_task_id uid)
             | _ => None
             end) tr.

(** One element of the list comprehension of [get_all_tasks]: the
    subscripts raise [KeyError] on a record without the field, in the
    order in which the dictionary display evaluates them. *)
Definition task_summary (t : gmap string pyval) : result (gmap string pyval) :=
  match t !! "task_id" with
  | None => Raise "KeyError: 'task_id'"
  | Some task_id =>
  match t !! "phone_number" with
  | None => Raise "KeyError: 'phone_number'"
  | Some phone_number =>
  match t !! "status" with
  | None => Raise "KeyError: 'status'"
  | Some status =>
  let iterations := default (PInt 0) (t !! "iterations") in
  match t !! "created_at" with
  | None => Raise "KeyError: 'created_at'"
  | Some created_at =>
      Ok (list_to_map
            [ ("task_id", task_id);
              ("phone_number", phone_number);
              ("status", status);
              ("iterations", iterations);
              ("created_at", created_at) ])
  end end end end.

Fixpoint task_summaries (tasks : list (gmap string pyval))
    : result (list (gmap string pyval)) :=
  match tasks with
  | [] => Ok []
  | t :: tasks =>
      match task_summary t with
      | Raise e => Raise e
      | Ok s =>
          match task_summaries tasks with
          | Raise e => Raise e
          | Ok l => Ok (s :: l)
          end
      end
  end.

Definition get_all_tasks (σ : state) : result (list (gmap string pyval)) :=
  match RedisManager.get_all_tasks (clock σ) (redis σ) with
  | Raise e => Raise e
  | Ok tasks => task_summaries tasks
  end.

End TaskManager.

Import TaskManager.

(* ================================================================== *)
(** ** Observations of a task record *)
(* ================================================================== *)

Definition sum_success (stats : gmap string svc_stat) : Z :=
  map_fold (λ _ s acc, success_count s + acc) 0 stats.

Definition sum_failed (stats : gmap string svc_stat) : Z :=
  map_fold (λ _ s acc, failed_count s + acc) 0 stats.


(* ================================================================== *)
(** ** Invariants of the process *)
(* ================================================================== *)

(** The counters of a stored hash; a field that is absent counts as
    zero (as an empty mapping for the statistics), the way [get_task]
    and [dict.get] read it. *)
Definition hcount (h : gmap string rval) (k : string) : option Z :=
  match h !! k with
  | None => Some 0
  | Some (RInt n) => Some n
  | Some _ => None
  end.




(** The fields that carry the counters of a record. *)
Definition counter_keys : list string :=
  ["total_requests"; "successful_requests"; "failed_requests"; "services_stats"].

Definition untouched (m : gmap string rval) : Prop :=
  Forall (λ k, m !! k = None) counter_keys.

Definition bit (b : bool) : Z := if b then 1 else 0.





Definition task_ids (σ : state) : list string := r_task_id <$> threads σ.


(** The aggregate counters alone: the invariant that needs nothing of
    the task ids.  A hash, the store, a snapshot held by a Runner. *)
Definition totals_add_up (task : gmap string pyval) : Prop :=
  ∃ total successful failed,
    get_or task "total_requests" (PInt 0) = PInt total ∧
    get_or task "successful_requests" (PInt 0) = PInt successful ∧
    get_or task "failed_requests" (PInt 0) = PInt failed ∧
    total = successful + failed.

Definition hash_total (h : gmap string rval) : Prop :=
  ∃ total successful failed,
    hcount h "total_requests" = Some total ∧
    hcount h "successful_requests" = Some successful ∧
    hcount h "failed_requests" = Some failed ∧
    total = successful + failed.

Definition store_total (db : gmap string Redis.entry) : Prop :=
  ∀ key e, db !! key = Some e → hash_total (Redis.e_hash e).

Definition thread_total (r : runner) : Prop :=
  match r_pc r with
  | AtUpdate _ _ task => totals_add_up task
  | _ => True
  end.

Definition InvT (σ : state) : Prop :=
  store_total (redis σ) ∧ Forall thread_total (threads σ).

(** Several steps of one Runner in a row, under the given environment
    behaviours, with the clock and the events as they are. *)
Definition _run_task_steps (envs : list env) (now : Z) (evs : list bool)
    (r : runner) (db : gmap string Redis.entry) (act : gmap string nat)
    : runner * gmap string Redis.entry * gmap string nat :=
  foldl (λ c ev, _run_task_step ev now evs c.1.1 c.1.2 c.2) (r, db, act) envs.

(** The states of a Runner that has seen its stop event set at the
    head of the [for] with [svc :: rest] left: it is still there, or
    back at the [while], or on its way out. *)
Definition leaving (svc : service) (rest : list service) (p : pc) : Prop :=
  p = AtFor (svc :: rest) ∨ p = AtWhile ∨ p = AtFinally None ∨ p = Finished.

(** The local variables that hold what the Runner has counted. *)
Definition counted (r : runner) : Z * gmap string svc_stat * Z * Z * Z :=
  (r_iteration r, r_services_stats r, r_total_requests r, r_successful r,
   r_failed r).

Definition cancelled (i : nat) (r0 : runner) (svc : service)
    (rest : list service) (σ : state) : Prop :=
  ∃ r, threads σ !! i = Some r ∧
       r_stop_event r = r_stop_event r0 ∧
       is_set (events σ) (r_stop_event r0) = true ∧
       counted r = counted r0 ∧
       leaving svc rest (r_pc r).

(** Reading one field of a record, the way a client of [get_task]
    does; [None] when there is no record or no such field. *)
Definition read_field (σ : state) (task_id k : string) : option pyval :=
  match get_task (clock σ) (redis σ) task_id with
  | Ok (Some task) => task !! k
  | _ => None
  end.


(* ================================================================== *)
(** ** Sample runs *)
(* ================================================================== *)

Definition uid1 : string := "0123456789abcdef0123456789abcdef".

Definition tid1 : string := "taskid-0123-4567".

(** One task created, nothing run yet. *)
Definition sigma_pending : state := (start_task uid1 "9876543210" 10 initial).1.

(** The task started, its first request answered and reported. *)
Definition run1 : list label :=
  [ Start uid1 "9876543210" 10;
    Run 0 Quiet; Run 0 Quiet; Run 0 Quiet; Run 0 Quiet;
    Run 0 (Http (Returned 200 "ok")); Run 0 Quiet; Run 0 Quiet ].

Definition sigma_running : state := exec run1 initial.

Definition task_running : gmap string pyval :=
  map_imap parse_field
    (Redis.hgetall (clock sigma_running) (redis sigma_running) (_get_key tid1)).

Definition task_pending : gmap string pyval :=
  map_imap parse_field
    (Redis.hgetall (clock sigma_pending) (redis sigma_pending) (_get_key tid1)).

(** Stopped during the wait after the first request; the Runner is back
    at the head of the [for]. *)
Definition sigma_cancelled : state :=
  exec [Stop tid1; Run 0 Quiet] sigma_running.

(** A Runner about to send its first request. *)
Definition runner_sending : runner :=
  {| r_task_id := tid1; r_phone_number := "9876543210"; r_interval := 10;
     r_stop_event := 0%nat; r_iteration := 1; r_services_stats := init_stats;
     r_total_requests := 0; r_successful := 0; r_failed := 0;
     r_pc := AtSend HungamaService [ShemarooMeService; UnacademyService] |}.

(** The Runner of [sigma_cancelled]. *)
Definition runner_cancelled : runner :=
  {| r_task_id := tid1; r_phone_number := "9876543210"; r_interval := 10;
     r_stop_event := 0%nat; r_iteration := 1;
     r_services_stats :=
       <["Hungama" := {| success_count := 1; failed_count := 0 |}]> init_stats;
     r_total_requests := 1; r_successful := 1; r_failed := 0;
     r_pc := AtFor [ShemarooMeService; UnacademyService] |}.

(** A second task whose uuid starts with the same eight digits as the
    first one's, started while the first Runner waits; the first Runner
    then sends and reports its next request. *)
Definition uid2 : string := "01234567ffffffffffffffffffffffff".

Definition run_reused : list label :=
  run1 ++
  [ Start uid2 "9123456780" 5;
    Run 0 Quiet; Run 0 Quiet; Run 0 (Http (Returned 200 "ok"));
    Run 0 Quiet; Run 0 Quiet ].

(** The sum of the success counts a reader finds in a record. *)
Definition read_success_sum (σ : state) (task_id : string) : option Z :=
  match read_field σ task_id "services_stats" with
  | Some (PDict d) => Some (sum_success d)
  | _ => None
  end.



(** A key that is neither the statistics field nor one of the integer
    fields: [get_task] keeps its text as it is. *)
Definition plain_key (k : string) : Prop :=
  k ≠ "services_stats" ∧ k ∉ int_keys.

(** What [get_task] makes of a value written by [update_task] under the
    key [k]. *)
Definition read_back (k : string) (v : pyval) : option pyval :=
  parse_field k (to_redis_value v).

(** The values [update_task] can write under [k] and [get_task] can
    read: every dictionary the program writes is made of these. *)
Definition storable (k : string) (v : pyval) : Prop := is_Some (read_back k v).

(** Every hash of the store is made of fields [get_task] can parse. *)
Definition readable (db : gmap string Redis.entry) : Prop :=
  map_Forall (λ _ e, map_Forall parses (Redis.e_hash e)) db.

(** The record of a task id at [now], if there is one to read. *)
Definition record (now : Z) (db : gmap string Redis.entry) (task_id : string)
    : option (gmap string pyval) :=
  match get_task now db task_id with
  | Ok task => task
  | Raise _ => None
  end.

(** The statuses the program writes. *)
Definition written_statuses : list string :=
  status_value <$> [PENDING; RUNNING; STOPPED; ERROR].

(** A hash that parses and whose status, if it has one, is one of the
    statuses the program writes. *)
Definition hash_fine (h : gmap string rval) : Prop :=
  map_Forall parses h ∧
  ∀ v, h !! "status" = Some v → ∃ s, v = RStr s ∧ s ∈ written_statuses.

(** Every key of the store is the key of a generated task id and holds
    such a hash; every Runner works for a generated task id. *)
Definition store_fine (db : gmap string Redis.entry) : Prop :=
  ∀ key e, db !! key = Some e →
    hash_fine (Redis.e_hash e) ∧ ∃ uid, key = _get_key (generate_task_id uid).

Definition Fine (σ : state) : Prop :=
  store_fine (redis σ) ∧
  Forall (λ r, ∃ uid, r_task_id r = generate_task_id uid) (threads σ).

(** A step in which the environment fails a Runner: a Redis call or the
    construction of the HTTP client raises. *)
Definition is_fault (l : label) : bool :=
  match l with
  | Run _ (Fault _) => true
  | _ => false
  end.

(** The places of a Runner on the exception path. *)
Definition failing (p : pc) : bool :=
  match p with
  | AtExcept _ | AtFinally (Some _) | Died _ => true
  | _ => false
  end.

(** The statistics have an entry for every service. *)
Definition complete (stats : gmap string svc_stat) : Prop :=
  ∀ svc, is_Some (stats !! name svc).

(** The three counters of a record read are integers. *)
Definition counters_int (task : gmap string pyval) : Prop :=
  ∀ k, k ∈ ["total_requests"; "successful_requests"; "failed_requests"] →
       ∃ n, get_or task k (PInt 0) = PInt n.

Definition thread_calm (r : runner) : Prop :=
  failing (r_pc r) = false ∧
  match r_pc r with
  | AtStart => True
  | AtUpdate _ _ task => counters_int task ∧ complete (r_services_stats r)
  | _ => complete (r_services_stats r)
  end.

Definition no_error (db : gmap string Redis.entry) : Prop :=
  ∀ key e, db !! key = Some e →
    Redis.e_hash e !! "status" ≠ Some (RStr (status_value ERROR)).

Definition Calm (σ : state) : Prop :=
  Fine σ ∧ no_error (redis σ) ∧ Forall thread_calm (threads σ).

(** A Runner that has returned, or died. *)
Definition done_pc (p : pc) : bool :=
  match p with
  | Finished | Died _ => true
  | _ => false
  end.

(** The registry [active_tasks] and the Runners, while no task id is
    given twice: the event of the i-th Runner is the i-th event, an id
    registered is registered with the event of the Runner of that id,
    and a Runner that has not returned has its event set or
    registered. *)
Definition Reg (σ : state) : Prop :=
  NoDup (task_ids σ) ∧
  length (events σ) = length (threads σ) ∧
  (∀ i r, threads σ !! i = Some r → r_stop_event r = i) ∧
  (∀ tid h, active_tasks σ !! tid = Some h →
     ∃ r, threads σ !! h = Some r ∧ r_task_id r = tid) ∧
  (∀ i r, threads σ !! i = Some r → done_pc (r_pc r) = false →
     is_set (events σ) i = true ∨ active_tasks σ !! r_task_id r = Some i).

(** An event that is not set and that the registry does not hold. *)
Definition out_of_reach (σ : state) (h : nat) : Prop :=
  (h < length (events σ))%nat ∧
  is_set (events σ) h = false ∧
  ∀ tid, active_tasks σ !! tid ≠ Some h.

(** How far a Runner whose stop event is set is from returning, in
    steps. *)
Definition rank (p : pc) : nat :=
  match p with
  | Finished | Died _ => 0
  | AtFinally _ => 1
  | AtWhile | AtExcept _ => 2
  | AtFor _ | AtClient => 3
  | AtWait _ | AtStart => 4
  | AtUpdate _ _ _ => 5
  | AtGet _ _ => 6
  | AtSend _ _ => 7
  end.

(** The steps of the trace in which Runner [i] moves and the HTTP
    exchange it may be waiting for returns. *)
Definition is_http_run (i : nat) (l : label) : bool :=
  match l with
  | Run j (Http _) => bool_decide (j = i)
  | _ => false
  end.

Definition http_runs (i : nat) (tr : list label) : nat :=
  length (filter (λ l, is_http_run i l = true) tr).

(** The places where a Runner sets or changes what it has counted. *)
Definition counting (p : pc) : bool :=
  match p with
  | AtStart | AtSend _ _ => true
  | _ => false
  end.

(** The dictionaries a Runner passes to [update_task]: none of them
    carries the fields written at creation only. *)
Definition runner_update (updates : gmap string pyval) : Prop :=
  updates ≠ ∅ ∧ map_Forall storable updates ∧
  updates !! "task_id" = None ∧ updates !! "phone_number" = None ∧
  updates !! "created_at" = None.

(** The places of a Runner inside its loop. *)
Definition looping (p : pc) : bool :=
  match p with
  | AtClient | AtWhile | AtFor _ | AtSend _ _ | AtGet _ _ | AtWait _ => true
  | _ => false
  end.

(** Runner [i] works for [task_id] inside its loop, its stop event is
    not set, and the task has no record. *)
Definition lost (σ : state) (i : nat) (task_id : string) : Prop :=
  ∃ r, threads σ !! i = Some r ∧ r_task_id r = task_id ∧
       looping (r_pc r) = true ∧
       is_set (events σ) i = false ∧
       Redis.find (clock σ) (redis σ) (_get_key task_id) = None.

(** What the environment does during one request of a Runner: the
    Runner leaves the head of the [for], the exchange returns [o], the
    record is read, written, and the wait ends. *)
Definition request_envs (o : http_outcome) : list env :=
  [Quiet; Http o; Quiet; Quiet; Quiet].

(** One pass of the [while] loop over the three services, from the test
    of the [while] back to it. *)
Definition pass_envs (o1 o2 o3 : http_outcome) : list env :=
  [Quiet] ++ request_envs o1 ++ request_envs o2 ++ request_envs o3 ++ [Quiet].

Definition is_delete (l : label) : bool :=
  match l with
  | Delete _ => true
  | _ => false
  end.

(** A hash that carries the fields written at creation for [task_id]. *)
Definition identified (task_id : string) (h : gmap string rval) : Prop :=
  (task_id ∉ ["None"; ""]) ∧
  h !! "task_id" = Some (RStr task_id) ∧
  (∃ phone_number, h !! "phone_number" = Some (RStr phone_number)) ∧
  (∃ t, h !! "created_at" = Some (RTime t)) ∧
  is_Some (h !! "status").

(** The store during the first 24 hours of a process that deletes
    nothing: the keys are those of the task ids started, each with its
    fields of creation and a deadline that has not come. *)
Definition store_kept (ids : list string) (db : gmap string Redis.entry)
    : Prop :=
  (∀ key e, db !! key = Some e →
     ∃ tid d, key = _get_key tid ∧ tid ∈ ids ∧
              identified tid (Redis.e_hash e) ∧
              Redis.e_expiry e = Some d ∧ 86400 ≤ d) ∧
  (∀ tid, tid ∈ ids → is_Some (db !! _get_key tid)).

Definition Kept (σ : state) : Prop :=
  0 ≤ clock σ ∧ store_kept (task_ids σ) (redis σ).

(** The task id a step of the process is about: the id drawn by a
    [start_task], the id given to [stop_task] or [delete_task], the id
    of the Runner that moves. *)
Definition concerns (σ : state) (l : label) (task_id : string) : Prop :=
  match l with
  | Tick _ => False
  | Start uid _ _ => generate_task_id uid = task_id
  | Stop tid | Delete tid => tid = task_id
  | Run i _ => ∃ r, threads σ !! i = Some r ∧ r_task_id r = task_id
  end.

(** The three counters of a record. *)
Definition counters3 : list string :=
  ["total_requests"; "successful_requests"; "failed_requests"].

(** The record a Runner has read and has not written back yet shows the
    counters the store holds for its task. *)
Definition snapshot_current (db : gmap string Redis.entry) (r : runner)
    : Prop :=
  match r_pc r with
  | AtUpdate _ _ task =>
      ∀ e, db !! _get_key (r_task_id r) = Some e →
      ∀ k, k ∈ counters3 →
        ∃ n, hcount (Redis.e_hash e) k = Some n ∧
             get_or task k (PInt 0) = PInt n
  | _ => True
  end.

(** The counters of the hashes under [key], before and after. *)
Definition counters_grow (db db' : gmap string Redis.entry) (key : string)
    : Prop :=
  ∀ e e' k n n',
    db !! key = Some e → db' !! key = Some e' → k ∈ counters3 →
    hcount (Redis.e_hash e) k = Some n → hcount (Redis.e_hash e') k = Some n' →
    n ≤ n'.

Definition counters_same (db db' : gmap string Redis.entry) (key : string)
    : Prop :=
  ∀ e', db' !! key = Some e' →
    ∃ e, db !! key = Some e ∧
         ∀ k, k ∈ counters3 →
              hcount (Redis.e_hash e') k = hcount (Redis.e_hash e) k.

Definition Mono (σ : state) : Prop :=
  NoDup (task_ids σ) ∧ Kept σ ∧ InvT σ ∧
  Forall (snapshot_current (redis σ)) (threads σ).

(** The Runner of [sigma_running], waiting after its first request. *)
Definition runner_waiting : runner :=
  set_pc (AtWait [ShemarooMeService; UnacademyService]) runner_cancelled.

(** Seven steps of the first Runner, each with an answer at hand. *)
Definition run_http : list label :=
  replicate 7 (Run 0 (Http (Returned 200 "ok"))).

(** A task deleted while pending, before its Runner has written. *)
Definition sigma_deleted : state :=
  exec [Start uid1 "9876543210" 10; Delete tid1] initial.

Definition runner_starting : runner :=
  {| r_task_id := tid1; r_phone_number := "9876543210"; r_interval := 10;
     r_stop_event := 0%nat; r_iteration := 0; r_services_stats := ∅;
     r_total_requests := 0; r_successful := 0; r_failed := 0;
     r_pc := AtStart |}.





(** The first request reported, and 24 hours gone. *)
Definition run_expired : list label := run1 ++ [Tick 86400].

(* ================================================================== *)
(** * Properties *)
(* ================================================================== *)


(** Closes an equation between closed terms by evaluation. *)
Ltac by_evaluation :=
  lazymatch goal with
  | |- @eq ?A _ ?b => vm_cast_no_check (@eq_refl A b)
  end.

(** Case analysis on the first eight characters of a string. *)
Ltac first_eight uid :=
  destruct uid as [|? [|? [|? [|? [|? [|? [|? [|? uid]]]]]]]].

(* ------------------------------------------------------------------ *)
(** ** The store *)
(* ------------------------------------------------------------------ *)

Lemma _get_key_inj a b : _get_key a = _get_key b → a = b.
Proof. unfold _get_key, task_prefix. simpl. intros H. by simplify_eq. Qed.

Section store_facts.
Context (now : Z) (db : gmap string Redis.entry).

Lemma find_hset_eq key m :
  Redis.find now (Redis.hset now db key m) key =
    Some {| Redis.e_hash := m ∪ Redis.hgetall now db key;
            Redis.e_expiry := Redis.find now db key ≫= Redis.e_expiry |}.
Proof.
  unfold Redis.hset, Redis.hgetall.
  destruct (Redis.find now db key) as [e|] eqn:Hf; simpl.
  - unfold Redis.find in *. rewrite lookup_insert_eq.
    destruct (db !! key) as [e0|]; [|done].
    destruct (Redis.live now e0) eqn:Hl; [|done]. simplify_eq.
    unfold Redis.live in *. simpl. by rewrite Hl.
  - unfold Redis.find. rewrite lookup_insert_eq. simpl.
    by rewrite (right_id_L ∅ (∪)).
Qed.

Lemma lookup_hset_eq key m :
  Redis.hset now db key m !! key =
    Some {| Redis.e_hash := m ∪ Redis.hgetall now db key;
            Redis.e_expiry := Redis.find now db key ≫= Redis.e_expiry |}.
Proof.
  unfold Redis.hset, Redis.hgetall.
  destruct (Redis.find now db key) as [e|]; simpl;
    rewrite lookup_insert_eq; [done|].
  by rewrite (right_id_L ∅ (∪)).
Qed.

Lemma lookup_hset_ne key key' m :
  key ≠ key' → Redis.hset now db key m !! key' = db !! key'.
Proof.
  intros Hne. unfold Redis.hset.
  destruct (Redis.find now db key); by rewrite lookup_insert_ne.
Qed.

Lemma find_hset_ne key key' m now' :
  key ≠ key' →
  Redis.find now' (Redis.hset now db key m) key' = Redis.find now' db key'.
Proof. intros Hne. unfold Redis.find. by rewrite lookup_hset_ne. Qed.
End store_facts.

(* ------------------------------------------------------------------ *)
(** ** Sums of the per-service statistics *)
(* ------------------------------------------------------------------ *)

Lemma sum_success_empty : sum_success ∅ = 0.
Proof. reflexivity. Qed.

Lemma sum_success_insert stats k s s' :
  stats !! k = Some s →
  sum_success (<[k := s']> stats) =
    sum_success stats - success_count s + success_count s'.
Proof.
  intros Hk. unfold sum_success.
  rewrite <- (insert_delete_eq stats k s').
  rewrite map_fold_insert_L; [| intros; lia | apply lookup_delete_eq].
  rewrite (map_fold_delete_L _ _ k s stats); [lia | intros; lia | done].
Qed.

Lemma sum_failed_insert stats k s s' :
  stats !! k = Some s →
  sum_failed (<[k := s']> stats) =
    sum_failed stats - failed_count s + failed_count s'.
Proof.
  intros Hk. unfold sum_failed.
  rewrite <- (insert_delete_eq stats k s').
  rewrite map_fold_insert_L; [| intros; lia | apply lookup_delete_eq].
  rewrite (map_fold_delete_L _ _ k s stats); [lia | intros; lia | done].
Qed.


(* ------------------------------------------------------------------ *)
(** ** Counters of a stored hash *)
(* ------------------------------------------------------------------ *)








Lemma union_nonempty (m h : gmap string rval) k v :
  m !! k = Some v → m ∪ h ≠ ∅.
Proof.
  intros Hk Hempty. apply (lookup_union_Some_l m h) in Hk.
  by rewrite Hempty in Hk.
Qed.






Lemma parsed_counter h k n :
  k ∈ ["total_requests"; "successful_requests"; "failed_requests"] →
  hcount h k = Some n →
  get_or (map_imap parse_field h) k (PInt 0) = PInt n.
Proof.
  intros Hk. unfold hcount, get_or. rewrite map_lookup_imap.
  destruct (h !! k) as [v|]; simpl; [|by intros [= <-]].
  destruct v; try done. intros [= <-].
  repeat (apply elem_of_cons in Hk as [->|Hk]; [done|]).
  by apply elem_of_nil in Hk.
Qed.


Lemma count_response_sums svc response stats stats' :
  count_response svc response stats = Ok stats' →
  sum_success stats' = sum_success stats + bit (success response) ∧
  sum_failed stats' = sum_failed stats + bit (negb (success response)).
Proof.
  unfold count_response. destruct (stats !! name svc) as [s|] eqn:Hs; [|done].
  intros [= <-].
  rewrite (sum_success_insert _ _ _ _ Hs), (sum_failed_insert _ _ _ _ Hs).
  destruct (success response); simpl; lia.
Qed.

Lemma untouched_status_started now :
  untouched (to_redis (list_to_map
    [("status", PStr (status_value RUNNING)); ("started_at", PTime now)])).
Proof. repeat constructor. Qed.

Lemma untouched_stopped now :
  untouched (to_redis (list_to_map
    [("status", PStr (status_value STOPPED)); ("stopped_at", PTime now)])).
Proof. repeat constructor. Qed.

Lemma untouched_error now e :
  untouched (to_redis (list_to_map
    [("status", PStr (status_value ERROR)); ("stopped_at", PTime now);
     ("last_activity", PStr ("Error: " +:+ e))])).
Proof. repeat constructor. Qed.

Lemma find_Some_lookup now db key e :
  Redis.find now db key = Some e → db !! key = Some e.
Proof.
  unfold Redis.find. destruct (db !! key) as [e0|]; [|done].
  destruct (Redis.live now e0); [|done]. by intros [= ->].
Qed.

Lemma get_task_Some now db tid task :
  get_task now db tid = Ok (Some task) →
  ∃ e, Redis.find now db (_get_key tid) = Some e ∧
       Redis.e_hash e ≠ ∅ ∧
       map_Forall parses (Redis.e_hash e) ∧
       task = map_imap parse_field (Redis.e_hash e).
Proof.
  unfold get_task, Redis.hgetall.
  destruct (Redis.find now db (_get_key tid)) as [e|]; [|done].
  case_bool_decide; [done|]. case_bool_decide; [|done].
  intros [= <-]. by exists e.
Qed.





(* ------------------------------------------------------------------ *)
(** ** A Runner step keeps the invariant *)
(* ------------------------------------------------------------------ *)

Lemma runner_step_task_id ev now evs r db act :
  r_task_id (_run_task_step ev now evs r db act).1.1 = r_task_id r.
Proof.
  unfold _run_task_step.
  repeat (match goal with
          | |- context [match ?x with _ => _ end] => destruct x
          end; simpl; try done).
Qed.

Lemma runner_step_other_keys ev now evs r db act k :
  k ≠ _get_key (r_task_id r) →
  (_run_task_step ev now evs r db act).1.2 !! k = db !! k.
Proof.
  intros Hk. unfold _run_task_step, update_task.
  repeat (match goal with
          | |- context [match ?x with _ => _ end] => destruct x
          end; simpl; try done);
    by rewrite lookup_hset_ne.
Qed.


(* ------------------------------------------------------------------ *)
(** ** Every step of the process keeps the invariant *)
(* ------------------------------------------------------------------ *)

Lemma find_mono now now' db key e :
  now ≤ now' → Redis.find now' db key = Some e → Redis.find now db key = Some e.
Proof.
  intros Hle. unfold Redis.find, Redis.live.
  destruct (db !! key) as [e0|]; [|done].
  destruct (Redis.e_expiry e0) as [d|]; [|done].
  destruct (now' <? d) eqn:Hl'; [|done].
  apply Z.ltb_lt in Hl'. assert ((now <? d) = true) as -> by (apply Z.ltb_lt; lia).
  done.
Qed.

Lemma lookup_expire_ne now db key k secs :
  key ≠ k → Redis.expire now db key secs !! k = db !! k.
Proof.
  intros Hne. unfold Redis.expire.
  destruct (Redis.find now db key); [by rewrite lookup_insert_ne | done].
Qed.

Lemma lookup_expire_hash now db key k secs e :
  Redis.expire now db key secs !! k = Some e →
  ∃ e0, db !! k = Some e0 ∧ Redis.e_hash e = Redis.e_hash e0.
Proof.
  unfold Redis.expire.
  destruct (Redis.find now db key) as [e1|] eqn:Hf; [|by exists e].
  destruct (decide (key = k)) as [<-|Hne].
  - rewrite lookup_insert_eq. intros [= <-]. exists e1.
    split; [by eapply find_Some_lookup | done].
  - rewrite lookup_insert_ne by done. by exists e.
Qed.


Lemma find_lookup_eq now db db' k :
  db' !! k = db !! k → Redis.find now db' k = Redis.find now db k.
Proof. unfold Redis.find. by intros ->. Qed.



Lemma task_ids_step σ l : task_ids (step σ l) = task_ids σ ++ started [l].
Proof.
  unfold task_ids. destruct l as [dt|uid ph iv|tid|tid|i ev]; simpl;
    rewrite ?(right_id_L [] (++)); try done.
  - by rewrite fmap_app.
  - unfold stop_task.
    repeat (match goal with
            | |- context [match ?x with _ => _ end] => destruct x
            end; simpl; try done).
  - unfold delete_task.
    repeat (match goal with
            | |- context [match ?x with _ => _ end] => destruct x
            end; simpl; try done).
  - unfold run_thread. destruct (threads σ !! i) as [r|] eqn:Hi; [|done].
    pose proof (runner_step_task_id ev (clock σ) (events σ) r (redis σ)
                  (active_tasks σ)) as Hid.
    destruct (_run_task_step ev (clock σ) (events σ) r (redis σ) (active_tasks σ))
      as [[r' db'] act']. simpl in *.
    rewrite list_fmap_insert. apply list_insert_id.
    by rewrite list_lookup_fmap, Hi, Hid.
Qed.





(* ------------------------------------------------------------------ *)
(** ** The aggregate counters, whatever the ids *)
(* ------------------------------------------------------------------ *)

Lemma progress_update_dict now iteration task response stats t s f :
  get_or task "total_requests" (PInt 0) = PInt t →
  get_or task "successful_requests" (PInt 0) = PInt s →
  get_or task "failed_requests" (PInt 0) = PInt f →
  progress_update now iteration task response stats =
    Ok (progress_dict now iteration (t + 1)
          (s + if success response then 1 else 0)
          (f + if success response then 0 else 1) stats).
Proof.
  unfold progress_update, get_plus. by intros -> -> ->.
Qed.

Lemma hash_total_empty : hash_total ∅.
Proof. by exists 0, 0, 0. Qed.

Lemma hash_total_untouched m h : untouched m → hash_total h → hash_total (m ∪ h).
Proof.
  intros Hm (t&s&f&Ht&Hs&Hf&?). exists t, s, f.
  unfold untouched, counter_keys in Hm.
  repeat (apply Forall_cons_1 in Hm as [? Hm]).
  unfold hcount in *. by rewrite !lookup_union_r by done.
Qed.

Lemma hash_total_set m h t s f :
  m !! "total_requests" = Some (RInt t) →
  m !! "successful_requests" = Some (RInt s) →
  m !! "failed_requests" = Some (RInt f) →
  t = s + f → hash_total (m ∪ h).
Proof.
  intros Ht Hs Hf ?. exists t, s, f. unfold hcount.
  by rewrite (lookup_union_Some_l _ _ _ _ Ht), (lookup_union_Some_l _ _ _ _ Hs),
    (lookup_union_Some_l _ _ _ _ Hf).
Qed.

Lemma hgetall_total now db key :
  store_total db → hash_total (Redis.hgetall now db key).
Proof.
  intros Hdb. unfold Redis.hgetall.
  destruct (Redis.find now db key) as [e|] eqn:Hf; [|apply hash_total_empty].
  by eapply Hdb, find_Some_lookup.
Qed.

Lemma store_total_hset now db key m :
  store_total db → hash_total (m ∪ Redis.hgetall now db key) →
  store_total (Redis.hset now db key m).
Proof.
  intros Hdb Hm k e. destruct (decide (key = k)) as [<-|Hne].
  - rewrite lookup_hset_eq. by intros [= <-].
  - rewrite lookup_hset_ne by done. apply Hdb.
Qed.

Lemma store_total_untouched now db key m :
  untouched m → store_total db → store_total (Redis.hset now db key m).
Proof.
  intros Hm Hdb. apply store_total_hset; [done|].
  by apply hash_total_untouched, hgetall_total.
Qed.

Lemma hash_total_parsed h : hash_total h → totals_add_up (map_imap parse_field h).
Proof.
  intros (t&s&f&Ht&Hs&Hf&?). exists t, s, f.
  rewrite (parsed_counter _ "total_requests" _ ltac:(set_solver) Ht),
    (parsed_counter _ "successful_requests" _ ltac:(set_solver) Hs),
    (parsed_counter _ "failed_requests" _ ltac:(set_solver) Hf).
  done.
Qed.

Lemma runner_step_total ev now evs r db act :
  store_total db → thread_total r →
  store_total (_run_task_step ev now evs r db act).1.2 ∧
  thread_total (_run_task_step ev now evs r db act).1.1.
Proof.
  intros Hdb Hr. unfold _run_task_step. unfold thread_total in Hr.
  destruct (r_pc r) as [| | |rest|svc rest|rest resp|rest resp task|rest|e|p| |e]
    eqn:Hpc.
  - destruct ev; simpl; (split; [|done]); try done;
      by apply store_total_untouched; [apply untouched_status_started|].
  - by destruct ev.
  - by destruct (is_set evs (r_stop_event r)).
  - destruct rest; [done|]. by destruct (is_set evs (r_stop_event r)).
  - destruct ev as [|o|e]; simpl; try (split; [done|]; unfold thread_total;
      by rewrite Hpc).
    by destruct (count_response svc (send_request svc o) (r_services_stats r)).
  - destruct (get_task now db (r_task_id r)) as [[task|]|e] eqn:Hget;
      destruct ev; simpl; (split; [done|]); unfold thread_total; simpl;
      try done;
      (apply get_task_Some in Hget as (e&Hf&_&_&->);
       by eapply hash_total_parsed, Hdb, find_Some_lookup).
  - destruct Hr as (t&s&f&Ht&Hs&Hf&?).
    rewrite (progress_update_dict _ _ _ _ _ t s f) by done.
    destruct ev; simpl; (split; [|done]); try done;
      (apply store_total_hset; [done|];
       eapply hash_total_set; try reflexivity;
       destruct (success resp); lia).
  - done.
  - destruct ev; simpl; (split; [|done]); try done;
      by apply store_total_untouched; [apply untouched_error|].
  - simpl. split; [done|]. unfold thread_total. simpl. by destruct p.
  - simpl. split; [done|]. unfold thread_total. simpl. by rewrite Hpc.
  - simpl. split; [done|]. unfold thread_total. simpl. by rewrite Hpc.
Qed.

Lemma step_total σ l : InvT σ → InvT (step σ l).
Proof.
  intros [Hdb Hthreads]. destruct l as [dt|uid ph iv|tid|tid|i ev]; simpl.
  - done.
  - split.
    + intros k e He. apply lookup_expire_hash in He as (e0&He0&->).
      revert k e0 He0. apply store_total_hset; [done|].
      by eapply hash_total_set.
    + apply Forall_app. split; [done|]. by apply Forall_singleton.
  - unfold stop_task.
    destruct (get_task (clock σ) (redis σ) tid) as [[task|]|e]; [|done|done].
    destruct (task !! "status") as [st|]; [|done].
    case_bool_decide; [done|].
    destruct (active_tasks σ !! tid); simpl; (split; [|done]);
      by apply store_total_untouched; [apply untouched_stopped|].
  - unfold delete_task.
    destruct (get_task (clock σ) (redis σ) tid) as [[task|]|e]; [|done|done].
    destruct (task !! "status") as [st|]; [|done].
    case_bool_decide; [done|].
    unfold RedisManager.delete_task, Redis.del.
    assert (store_total (delete (_get_key tid) (redis σ))) as Hdel.
    { intros k e He. apply lookup_delete_Some in He as [_ He].
      by eapply Hdb. }
    by destruct (Redis.find (clock σ) (redis σ) (_get_key tid)).
  - unfold run_thread. destruct (threads σ !! i) as [r|] eqn:Hi; [|done].
    pose proof (runner_step_total ev (clock σ) (events σ) r (redis σ)
                  (active_tasks σ) Hdb
                  (proj1 (Forall_lookup _ _) Hthreads i r Hi)) as [Hdb' Hr'].
    destruct (_run_task_step ev (clock σ) (events σ) r (redis σ)
                (active_tasks σ)) as [[r' db'] act']. simpl in *.
    split; [done|]. by apply Forall_insert.
Qed.


Lemma InvT_initial : InvT initial.
Proof.
  split; [|apply Forall_nil_2].
  intros k e He. simpl in He. by rewrite lookup_empty in He.
Qed.


(** Without the condition on the ids the second part fails: when a task
    is created under the id of a task whose Runner is alive, the record
    is reset and the Runner's statistics are not. *)
Example reused_id_breaks_sums :
  started run_reused = [tid1; tid1] ∧
  read_field (exec run_reused initial) tid1 "successful_requests"
    = Some (PInt 1) ∧
  read_success_sum (exec run_reused initial) tid1 = Some 2.
Proof. repeat split; by_evaluation. Qed.


(* ------------------------------------------------------------------ *)
(** ** Cancellation *)
(* ------------------------------------------------------------------ *)

Lemma is_set_app evs h : is_set evs h = true → is_set (evs ++ [false]) h = true.
Proof.
  unfold is_set. destruct (evs !! h) as [b|] eqn:Hh; [|done].
  by rewrite (lookup_app_l_Some _ _ _ _ Hh).
Qed.

Lemma is_set_insert evs h h' : is_set evs h = true → is_set (<[h' := true]> evs) h = true.
Proof.
  unfold is_set. destruct (evs !! h) as [b|] eqn:Hh; [|done]. simpl. intros ->.
  destruct (decide (h' = h)) as [->|Hne].
  - rewrite list_lookup_insert_eq; [done | by eapply lookup_lt_Some].
  - by rewrite list_lookup_insert_ne, Hh.
Qed.

Lemma cancelled_silent i r0 svc rest σ ev :
  cancelled i r0 svc rest σ → redis (run_thread i ev σ) = redis σ.
Proof.
  intros (r&Hi&Hev&Hset&_&Hpc). unfold run_thread. rewrite Hi.
  unfold _run_task_step. rewrite Hev, Hset.
  destruct Hpc as [-> | [-> | [-> | ->]]]; done.
Qed.

Lemma cancelled_step i r0 svc rest σ l :
  cancelled i r0 svc rest σ → cancelled i r0 svc rest (step σ l).
Proof.
  intros (r&Hi&Hev&Hset&Hcnt&Hpc).
  destruct l as [dt|uid ph iv|tid|tid|j ev]; simpl.
  - by exists r.
  - exists r. simpl. rewrite (lookup_app_l_Some _ _ _ _ Hi).
    repeat split; try done. by apply is_set_app.
  - unfold stop_task.
    destruct (get_task (clock σ) (redis σ) tid) as [[task|]|e];
      try (by exists r).
    destruct (task !! "status") as [st|]; [|by exists r].
    case_bool_decide; [by exists r|].
    destruct (active_tasks σ !! tid); simpl; exists r; repeat split;
      try done. by apply is_set_insert.
  - unfold delete_task.
    repeat (match goal with
            | |- context [match ?x with _ => _ end] => destruct x eqn:?
            end; simpl; try (by exists r)).
  - unfold run_thread. destruct (threads σ !! j) as [rj|] eqn:Hj; [|by exists r].
    destruct (decide (j = i)) as [->|Hne].
    + assert (rj = r) as -> by congruence.
      unfold _run_task_step. rewrite Hev, Hset.
      destruct Hpc as [Hp | [Hp | [Hp | Hp]]]; rewrite Hp; simpl;
        (eexists; split;
         [apply list_lookup_insert_eq; by eapply lookup_lt_Some|]);
        repeat split; try done; unfold leaving; simpl; auto.
    + destruct (_run_task_step ev (clock σ) (events σ) rj (redis σ)
                  (active_tasks σ)) as [[r' db'] act']. simpl.
      exists r. simpl. by rewrite list_lookup_insert_ne.
Qed.

Lemma cancelled_exec tr : ∀ i r0 svc rest σ,
  cancelled i r0 svc rest σ → cancelled i r0 svc rest (exec tr σ).
Proof.
  induction tr as [|l tr IH]; intros i r0 svc rest σ Hc; [done|].
  simpl. by apply IH, cancelled_step.
Qed.

(** C4.  A Runner that finds its stop event set at the head of the
    [for], with services of the pass still to do, abandons the pass,
    leaves the [while] and returns, in three steps that write nothing to
    the store (no status, no counter); and whatever the process does
    from then on, the Runner's counters stay as they are and no step of
    this Runner changes the store. *)
Theorem cancel_between_actions (σ : state) (i : nat) (r : runner)
    (svc : service) (rest : list service) :
  threads σ !! i = Some r →
  r_pc r = AtFor (svc :: rest) →
  is_set (events σ) (r_stop_event r) = true →
  (* the pass is abandoned and the thread leaves, writing nothing *)
  (∃ act,
     _run_task_steps [Quiet; Quiet; Quiet] (clock σ) (events σ) r (redis σ)
       (active_tasks σ) = (set_pc Finished r, redis σ, act)) ∧
  (* whatever happens afterwards, this Runner counts and writes no more *)
  (∀ tr, ∃ r',
     threads (exec tr σ) !! i = Some r' ∧
     counted r' = counted r ∧
     leaving svc rest (r_pc r') ∧
     ∀ ev, redis (run_thread i ev (exec tr σ)) = redis (exec tr σ)).
Proof.
  intros Hi Hpc Hset. split.
  - assert (_run_task_step Quiet (clock σ) (events σ) r (redis σ)
              (active_tasks σ) = (set_pc AtWhile r, redis σ, active_tasks σ))
      as H1 by (unfold _run_task_step; by rewrite Hpc, Hset).
    assert (_run_task_step Quiet (clock σ) (events σ) (set_pc AtWhile r)
              (redis σ) (active_tasks σ)
            = (set_pc (AtFinally None) r, redis σ, active_tasks σ))
      as H2 by (unfold _run_task_step; simpl; by rewrite Hset).
    unfold _run_task_steps. simpl. rewrite H1. simpl. rewrite H2. simpl.
    by eexists.
  - intros tr.
    assert (cancelled i r svc rest σ) as Hc.
    { exists r. repeat split; try done. by left. }
    apply (cancelled_exec tr) in Hc.
    pose proof Hc as (r'&?&?&?&?&?). exists r'. repeat split; try done.
    intros ev. by eapply cancelled_silent.
Qed.

(* ------------------------------------------------------------------ *)
(** ** The control commands *)
(* ------------------------------------------------------------------ *)

Lemma hgetall_hset_eq now db key m :
  Redis.hgetall now (Redis.hset now db key m) key = m ∪ Redis.hgetall now db key.
Proof. unfold Redis.hgetall at 1. by rewrite find_hset_eq. Qed.

Lemma parses_union (m h : gmap string rval) :
  map_Forall parses m → map_Forall parses h → map_Forall parses (m ∪ h).
Proof.
  intros Hm Hh k v Hkv. apply lookup_union_Some_raw in Hkv as [?|[_ ?]].
  - by eapply Hm.
  - by eapply Hh.
Qed.


Lemma get_task_hset now db tid m k v :
  m !! k = Some v →
  map_Forall parses m →
  map_Forall parses (Redis.hgetall now db (_get_key tid)) →
  get_task now (Redis.hset now db (_get_key tid) m) tid =
    Ok (Some (map_imap parse_field (m ∪ Redis.hgetall now db (_get_key tid)))).
Proof.
  intros Hk Hm Hh. unfold get_task. rewrite hgetall_hset_eq.
  rewrite bool_decide_eq_false_2 by by eapply union_nonempty.
  by rewrite bool_decide_eq_true_2 by by apply parses_union.
Qed.

Lemma get_task_parses now db tid task :
  get_task now db tid = Ok (Some task) →
  map_Forall parses (Redis.hgetall now db (_get_key tid)) ∧
  task = map_imap parse_field (Redis.hgetall now db (_get_key tid)).
Proof.
  unfold get_task. case_bool_decide; [done|]. case_bool_decide; [|done].
  by intros [= <-].
Qed.



(* ------------------------------------------------------------------ *)
(** ** Creation *)
(* ------------------------------------------------------------------ *)

Lemma init_stats_lookup svc :
  init_stats !! name svc = Some {| success_count := 0; failed_count := 0 |}.
Proof. by destruct svc. Qed.


Lemma find_expire_eq now db key secs e :
  0 < secs → Redis.find now db key = Some e →
  Redis.find now (Redis.expire now db key secs) key =
    Some {| Redis.e_hash := Redis.e_hash e;
            Redis.e_expiry := Some (now + secs) |}.
Proof.
  intros Hsecs Hf. unfold Redis.expire. rewrite Hf.
  unfold Redis.find. rewrite lookup_insert_eq. unfold Redis.live. simpl.
  by rewrite (proj2 (Z.ltb_lt _ _)) by lia.
Qed.

Lemma create_task_find now db tid ph iv :
  Redis.find now (create_task now db tid ph iv).1 (_get_key tid) =
    Some {| Redis.e_hash :=
              to_redis (create_task now db tid ph iv).2
                ∪ Redis.hgetall now db (_get_key tid);
            Redis.e_expiry := Some (now + 86400) |}.
Proof.
  unfold create_task. cbn [fst snd].
  by rewrite (find_expire_eq _ _ _ 86400 _ ltac:(lia) (find_hset_eq _ _ _ _)).
Qed.





(* ------------------------------------------------------------------ *)
(** ** Expiry *)
(* ------------------------------------------------------------------ *)



(* ------------------------------------------------------------------ *)
(** ** Classification of a request *)
(* ------------------------------------------------------------------ *)


Lemma get_task_counter now db tid task k :
  k ∈ ["total_requests"; "successful_requests"; "failed_requests"] →
  get_task now db tid = Ok (Some task) →
  ∃ n, get_or task k (PInt 0) = PInt n.
Proof.
  intros Hk Hget. apply get_task_parses in Hget as [Hp ->].
  unfold get_or. rewrite map_lookup_imap.
  destruct (Redis.hgetall now db (_get_key tid) !! k) as [v|] eqn:Hv;
    [|by eexists].
  simpl. destruct (Hp k v Hv) as [x Hx]. rewrite Hx. simpl.
  repeat (apply elem_of_cons in Hk as [->|Hk];
          [unfold parse_field in Hx; simpl in Hx;
           destruct (truthy v); [destruct v|]; simplify_eq; by eexists|]).
  by apply elem_of_nil in Hk.
Qed.


(* ------------------------------------------------------------------ *)
(** ** The fault path *)
(* ------------------------------------------------------------------ *)

Lemma status_value_inj s s' : status_value s = status_value s' → s = s'.
Proof. by destruct s, s'. Qed.

Lemma progress_update_no_status now iteration task response stats updates :
  progress_update now iteration task response stats = Ok updates →
  to_redis updates !! "status" = None.
Proof.
  unfold progress_update.
  destruct (get_plus task "total_requests" 1); [|done].
  destruct (get_plus task "successful_requests" _); [|done].
  destruct (get_plus task "failed_requests" _); [|done].
  by intros [= <-].
Qed.



(* ------------------------------------------------------------------ *)
(** ** The theorems at the sample runs *)
(* ------------------------------------------------------------------ *)


Lemma get_task_pending :
  get_task (clock sigma_pending) (redis sigma_pending) tid1
    = Ok (Some task_pending).
Proof. by_evaluation. Qed.





Lemma cancel_between_actions_witness :
  threads sigma_cancelled !! 0%nat = Some runner_cancelled ∧
  ∀ tr ev, redis (run_thread 0 ev (exec tr sigma_cancelled))
             = redis (exec tr sigma_cancelled).
Proof.
  assert (threads sigma_cancelled !! 0%nat = Some runner_cancelled) as Hr
    by by_evaluation.
  split; [exact Hr|]. intros tr ev.
  destruct (cancel_between_actions sigma_cancelled 0 runner_cancelled
              ShemarooMeService [UnacademyService] Hr eq_refl) as [_ Hsilent].
  - by_evaluation.
  - destruct (Hsilent tr) as (r'&_&_&_&Hr'). apply Hr'.
Defined.





(* ------------------------------------------------------------------ *)
(** ** Writing a record and reading it back *)
(* ------------------------------------------------------------------ *)

Lemma hgetall_hset_ne now db key key' m now' :
  key ≠ key' →
  Redis.hgetall now' (Redis.hset now db key m) key' = Redis.hgetall now' db key'.
Proof. intros Hne. unfold Redis.hgetall. by rewrite find_hset_ne. Qed.

Lemma get_task_update_other now db tid tid' updates now' :
  tid ≠ tid' →
  get_task now' (update_task now db tid updates) tid' = get_task now' db tid'.
Proof.
  intros Hne. unfold get_task, update_task.
  rewrite hgetall_hset_ne; [done|].
  intros Heq. by apply _get_key_inj in Heq.
Qed.

Lemma parse_field_plain k v :
  plain_key k →
  parse_field k v =
    match v with
    | RStr s =>
        if bool_decide (s = "None" ∨ s = "") then Some PNone else Some (PStr s)
    | RTime t => Some (PTime t)
    | RInt _ | RJson _ => None
    end.
Proof.
  intros [Hk1 Hk2]. unfold parse_field.
  rewrite bool_decide_eq_false_2 by by intros ->%list_elem_of_singleton.
  by rewrite bool_decide_eq_false_2.
Qed.

Lemma parse_field_int k v :
  k ∈ int_keys →
  parse_field k v =
    if truthy v then match v with RInt n => Some (PInt n) | _ => None end
    else Some (PInt 0).
Proof.
  intros Hk. unfold parse_field.
  rewrite bool_decide_eq_false_2; [by rewrite bool_decide_eq_true_2|].
  intros ->%list_elem_of_singleton.
  unfold int_keys in Hk. repeat (apply elem_of_cons in Hk as [?|Hk]; [done|]).
  by apply elem_of_nil in Hk.
Qed.

(** X1.  Writing a value with [update_task] and reading the field back
    with [get_task] returns the value for a dictionary under
    [services_stats], an integer under one of the integer keys, and a
    time or a string under any other key; but the strings ["None"] and
    [""] written under such a key are read back as [None], and [None] is
    read back as [{}] under [services_stats] and as [0] under an integer
    key. *)
Theorem field_round_trip (k : string) :
  (∀ d, k = "services_stats" → read_back k (PDict d) = Some (PDict d)) ∧
  (∀ n, k ∈ int_keys → read_back k (PInt n) = Some (PInt n)) ∧
  (∀ t, plain_key k → read_back k (PTime t) = Some (PTime t)) ∧
  (∀ s, plain_key k → s ≠ "" → s ≠ "None" →
        read_back k (PStr s) = Some (PStr s)) ∧
  (plain_key k → read_back k (PStr "None") = Some PNone) ∧
  (∀ v, v = PNone ∨ v = PStr "" →
        read_back k v =
          Some (if bool_decide (k = "services_stats") then PDict ∅
                else if bool_decide (k ∈ int_keys) then PInt 0 else PNone)).
Proof.
  unfold read_back. repeat split.
  - by intros d ->.
  - intros n Hk. by rewrite parse_field_int.
  - intros t Hk. by rewrite parse_field_plain.
  - intros s Hk Hs1 Hs2. rewrite parse_field_plain by done. simpl.
    rewrite bool_decide_eq_false_2; [done|]. by intros [?|?].
  - intros Hk. by rewrite parse_field_plain.
  - intros v Hv.
    assert (to_redis_value v = RStr "") as -> by by destruct Hv as [-> | ->].
    case_bool_decide as Hs; [by subst|].
    case_bool_decide as Hi; [by rewrite parse_field_int|].
    by rewrite parse_field_plain.
Qed.

Lemma to_redis_parses (updates : gmap string pyval) :
  map_Forall storable updates → map_Forall parses (to_redis updates).
Proof.
  intros Hu k v. unfold to_redis. rewrite lookup_fmap.
  destruct (updates !! k) as [w|] eqn:Hw; [|done]. intros [= <-].
  by apply (Hu k w).
Qed.

Lemma to_redis_nonempty (updates : gmap string pyval) :
  updates ≠ ∅ → ∃ k v, to_redis updates !! k = Some v.
Proof.
  intros Hne. destruct (map_choose updates Hne) as (k&w&Hw).
  exists k, (to_redis_value w). unfold to_redis. by rewrite lookup_fmap, Hw.
Qed.

Lemma lookup_parsed_union (m h : gmap string rval) (updates : gmap string pyval) k :
  m = to_redis updates →
  map_imap parse_field (m ∪ h) !! k =
    match updates !! k with
    | Some v => read_back k v
    | None => map_imap parse_field h !! k
    end.
Proof.
  intros ->. rewrite !map_lookup_imap, lookup_union. unfold to_redis.
  rewrite lookup_fmap. destruct (updates !! k) as [v|]; simpl.
  - by destruct (h !! k).
  - by rewrite (left_id None _).
Qed.

(** X2.  [update_task] on an existing record is a merge: [get_task]
    then returns the fields of [updates] as written and every other
    field as it was, and the records of the other task ids, read at any
    time, are what they were. *)
Theorem update_then_get (now : Z) (db : gmap string Redis.entry)
    (task_id : string) (updates task : gmap string pyval) :
  get_task now db task_id = Ok (Some task) →
  updates ≠ ∅ →
  map_Forall storable updates →
  ∃ task',
    get_task now (update_task now db task_id updates) task_id
      = Ok (Some task') ∧
    (∀ k v, updates !! k = Some v → task' !! k = read_back k v) ∧
    (∀ k, updates !! k = None → task' !! k = task !! k) ∧
    (∀ other later, other ≠ task_id →
       get_task later (update_task now db task_id updates) other
         = get_task later db other).
Proof.
  intros Hget Hne Hst.
  destruct (get_task_parses _ _ _ _ Hget) as [Hp ->].
  destruct (to_redis_nonempty _ Hne) as (k0&v0&Hk0).
  eexists. split; [|split; [|split]].
  - unfold update_task.
    by apply (get_task_hset _ _ _ _ k0 v0); [|apply to_redis_parses|].
  - intros k v Hk. by rewrite (lookup_parsed_union _ _ updates), Hk.
  - intros k Hk. by rewrite (lookup_parsed_union _ _ updates), Hk.
  - intros other later Hother. by apply get_task_update_other.
Qed.

Lemma hgetall_hset_fresh now db key m later :
  Redis.find now db key = None →
  Redis.hgetall later (Redis.hset now db key m) key = m.
Proof.
  intros Hf. unfold Redis.hgetall, Redis.hset. rewrite Hf.
  unfold Redis.find. by rewrite lookup_insert_eq.
Qed.

(** X3.  [update_task] on a task id that has no record does not fail:
    it creates a record made of the fields of [updates] alone, and this
    record has no expiry: [get_task] returns it at every later time. *)
Theorem update_creates (now : Z) (db : gmap string Redis.entry)
    (task_id : string) (updates : gmap string pyval) :
  Redis.find now db (_get_key task_id) = None →
  updates ≠ ∅ →
  map_Forall storable updates →
  ∃ task',
    (∀ later,
       get_task later (update_task now db task_id updates) task_id
         = Ok (Some task')) ∧
    (∀ k, task' !! k = updates !! k ≫= read_back k).
Proof.
  intros Hf Hne Hst.
  destruct (to_redis_nonempty _ Hne) as (k0&v0&Hk0).
  exists (map_imap parse_field (to_redis updates)). split.
  - intros later. unfold get_task, update_task.
    rewrite hgetall_hset_fresh by done.
    rewrite bool_decide_eq_false_2.
    + by rewrite bool_decide_eq_true_2 by by apply to_redis_parses.
    + intros Hempty. by rewrite Hempty in Hk0.
  - intros k. rewrite map_lookup_imap. unfold to_redis. rewrite lookup_fmap.
    by destruct (updates !! k).
Qed.


Lemma create_task_data_storable now db tid ph iv :
  map_Forall storable (create_task now db tid ph iv).2.
Proof.
  unfold create_task. simpl.
  repeat (apply map_Forall_insert_2;
          [unfold storable, read_back, parse_field; simpl;
           repeat case_bool_decide; by eauto|]).
  apply map_Forall_empty.
Qed.



(** X5.  [RedisManager.delete_task] returns [True] exactly when there
    was a record (one that has expired counts as none); afterwards
    [get_task] returns [None] for the id at every time, the records of
    the other ids are as before, and deleting again returns [False]. *)
Theorem delete_task_result (now : Z) (db : gmap string Redis.entry)
    (task_id : string) :
  ((RedisManager.delete_task now db task_id).2 = true ↔
     is_Some (Redis.find now db (_get_key task_id))) ∧
  (∀ later,
     get_task later (RedisManager.delete_task now db task_id).1 task_id
       = Ok None) ∧
  (∀ later other, other ≠ task_id →
     get_task later (RedisManager.delete_task now db task_id).1 other
       = get_task later db other) ∧
  (∀ later,
     (RedisManager.delete_task later
        (RedisManager.delete_task now db task_id).1 task_id).2 = false).
Proof.
  assert ((RedisManager.delete_task now db task_id).1
          = delete (_get_key task_id) db) as ->.
  { unfold RedisManager.delete_task, Redis.del.
    by destruct (Redis.find now db (_get_key task_id)). }
  assert (∀ later,
            Redis.find later (delete (_get_key task_id) db) (_get_key task_id)
            = None) as Hgone.
  { intros later. unfold Redis.find. by rewrite lookup_delete_eq. }
  repeat split.
  - unfold RedisManager.delete_task, Redis.del.
    destruct (Redis.find now db (_get_key task_id)); [by eauto | done].
  - unfold RedisManager.delete_task, Redis.del.
    destruct (Redis.find now db (_get_key task_id)); [done|].
    by intros [? ?].
  - intros later. unfold get_task, Redis.hgetall. by rewrite Hgone.
  - intros later other Hne. unfold get_task, Redis.hgetall, Redis.find.
    rewrite lookup_delete_ne; [done|].
    intros Heq. by apply _get_key_inj in Heq.
  - intros later. unfold RedisManager.delete_task, Redis.del.
    by rewrite Hgone.
Qed.

(* ------------------------------------------------------------------ *)
(** ** From a key back to the task id *)
(* ------------------------------------------------------------------ *)

Lemma prefix_app old b : String.prefix old (old +:+ b) = true.
Proof.
  induction old as [|c old IH]; simpl; [by destruct b|].
  by destruct (Ascii.ascii_dec c c).
Qed.

Lemma prefix_inv old s : String.prefix old s = true → ∃ b, s = old +:+ b.
Proof.
  revert s. induction old as [|c old IH]; intros s.
  - intros _. by exists s.
  - destruct s as [|c' s]; simpl; [done|].
    destruct (Ascii.ascii_dec c c') as [->|]; [|done].
    intros [b ->]%IH. by exists b.
Qed.

Lemma remove_from_skip old x s :
  remove_from old (String.length x) (x +:+ s) = remove_from old 0 s.
Proof. induction x as [|c x IH]; simpl; [by destruct s | done]. Qed.

Lemma remove_from_cons old skip c s :
  remove_from old skip (String c s) =
    match skip with
    | S n => remove_from old n s
    | O =>
        if String.prefix old (String c s)
        then remove_from old (String.length old - 1) s
        else String c (remove_from old 0 s)
    end.
Proof. done. Qed.

Lemma remove_from_length old s : ∀ skip,
  (String.length (remove_from old skip s) ≤ String.length s)%nat.
Proof.
  induction s as [|c s IH]; intros skip; [done|].
  rewrite remove_from_cons.
  change (String.length (String c s)) with (S (String.length s)).
  destruct skip as [|n]; [|specialize (IH n); lia].
  destruct (String.prefix old (String c s)).
  - specialize (IH (String.length old - 1)%nat). lia.
  - specialize (IH 0%nat).
    change (String.length (String c (remove_from old 0 s)))
      with (S (String.length (remove_from old 0 s))). lia.
Qed.

Lemma occurs_cons old c s : occurs old s → occurs old (String c s).
Proof. intros (a&b&->). by exists (String c a), b. Qed.

Lemma occurs_inv old c s :
  occurs old (String c s) →
  String.prefix old (String c s) = true ∨ occurs old s.
Proof.
  intros ([|c' a]&b&Heq).
  - left. change (String c s = old +:+ b) in Heq. rewrite Heq.
    apply prefix_app.
  - right. change (String c s = String c' (a +:+ old +:+ b)) in Heq.
    injection Heq as -> ->. by exists a, b.
Qed.

Lemma remove_from_id old s : ¬ occurs old s → remove_from old 0 s = s.
Proof.
  induction s as [|c s IH]; intros Hno; [done|].
  rewrite remove_from_cons.
  destruct (String.prefix old (String c s)) eqn:Hp.
  - destruct Hno. apply prefix_inv in Hp as [b Hb]. exists "", b. by rewrite Hb.
  - f_equal. apply IH. intros Ho. by apply Hno, occurs_cons.
Qed.

Lemma remove_from_shorter old s :
  old ≠ "" → occurs old s →
  (String.length (remove_from old 0 s) < String.length s)%nat.
Proof.
  intros Hold. induction s as [|c s IH]; intros Ho.
  - destruct Ho as (a&b&Heq). destruct a, old; done.
  - rewrite remove_from_cons.
    change (String.length (String c s)) with (S (String.length s)).
    destruct (String.prefix old (String c s)) eqn:Hp.
    + pose proof (remove_from_length old s (String.length old - 1)). lia.
    + apply occurs_inv in Ho as [Ho|Ho]; [congruence|].
      change (String.length (String c (remove_from old 0 s)))
        with (S (String.length (remove_from old 0 s))).
      specialize (IH Ho). lia.
Qed.

Lemma remove_from_prefix old s :
  old ≠ "" → remove_from old 0 (old +:+ s) = remove_from old 0 s.
Proof.
  destruct old as [|c old]; [done|]. intros _.
  change (String c old +:+ s) with (String c (old +:+ s)).
  rewrite remove_from_cons.
  change (String c (old +:+ s)) with (String c old +:+ s).
  rewrite prefix_app.
  change (String.length (String c old) - 1)%nat
    with (String.length old - 0)%nat.
  rewrite Nat.sub_0_r. apply remove_from_skip.
Qed.

(** X6.  [get_all_tasks] turns a key back into a task id with
    [key.replace(prefix, "")], which drops every occurrence of the
    prefix: the key of [task_id] gives back [task_id] exactly when the
    prefix does not occur inside [task_id]. *)
Theorem key_to_task_id (task_id : string) :
  str_remove (_get_key task_id) task_prefix = str_remove task_id task_prefix ∧
  (str_remove (_get_key task_id) task_prefix = task_id ↔
     ¬ occurs task_prefix task_id).
Proof.
  assert (str_remove (_get_key task_id) task_prefix
          = str_remove task_id task_prefix) as Heq.
  { unfold str_remove, _get_key. by apply remove_from_prefix. }
  split; [done|]. rewrite Heq. unfold str_remove. split.
  - intros Hid Ho. apply (remove_from_shorter task_prefix) in Ho; [|done].
    rewrite Hid in Ho. lia.
  - apply remove_from_id.
Qed.

(* ------------------------------------------------------------------ *)
(** ** Generated task ids *)
(* ------------------------------------------------------------------ *)

Lemma substring_0_0 s : String.substring 0 0 s = "".
Proof. by destruct s. Qed.

(** X7.  The task id is made of the first eight characters of the uuid
    and of nothing else: two uuids give the same task id exactly when
    they agree on their first eight characters.  For a uuid of eight
    characters or more the id has sixteen characters. *)
Theorem generate_task_id_collision (uid uid' : string) :
  (generate_task_id uid = generate_task_id uid' ↔
     String.substring 0 8 uid = String.substring 0 8 uid') ∧
  ((8 ≤ String.length uid)%nat →
   String.length (generate_task_id uid) = 16%nat).
Proof.
  split; [split|].
  - first_eight uid; first_eight uid'; unfold generate_task_id; simpl;
      rewrite ?substring_0_0; cbv [String.append];
      intros Heq; by simplify_eq.
  - first_eight uid; first_eight uid'; unfold generate_task_id; simpl;
      rewrite ?substring_0_0; cbv [String.append];
      intros Heq; by simplify_eq.
  - first_eight uid; simpl; try lia. intros _.
    unfold generate_task_id. simpl. by rewrite substring_0_0.
Qed.

Lemma occurs_empty old : old ≠ "" → ¬ occurs old "".
Proof. intros Hold (a&b&Heq). destruct a, old; done. Qed.

Lemma generate_task_id_no_prefix uid :
  ¬ occurs task_prefix (generate_task_id uid).
Proof.
  first_eight uid; unfold generate_task_id; simpl;
    rewrite ?substring_0_0; cbv [String.append]; intros Ho;
    repeat (apply occurs_inv in Ho as [Hp|Ho];
            [apply prefix_inv in Hp as [b Hb];
             cbv [task_prefix String.append] in Hb; by simplify_eq|]);
    by apply occurs_empty in Ho.
Qed.

(** X8.  The task ids that [generate_task_id] returns, whatever the
    uuid, come back unchanged from their keys in [get_all_tasks]. *)
Theorem generated_key_to_task_id (uid : string) :
  str_remove (_get_key (generate_task_id uid)) task_prefix
    = generate_task_id uid.
Proof.
  unfold str_remove, _get_key. rewrite remove_from_prefix by done.
  apply remove_from_id, generate_task_id_no_prefix.
Qed.

(* ------------------------------------------------------------------ *)
(** ** Listing the records *)
(* ------------------------------------------------------------------ *)

Lemma elem_of_keys now db prefix key :
  key ∈ Redis.keys now db prefix ↔
  is_Some (Redis.find now db key) ∧ String.prefix prefix key = true.
Proof.
  unfold Redis.keys. rewrite list_elem_of_omap. split.
  - intros ([k e]&Hin&Hsome). apply elem_of_map_to_list in Hin. simpl in Hsome.
    destruct (Redis.live now e) eqn:Hlive; [|done].
    destruct (String.prefix prefix k) eqn:Hp; [|done].
    simpl in Hsome. injection Hsome as ->. split; [|done].
    unfold Redis.find. rewrite Hin, Hlive. by eexists.
  - intros [[e He] Hp]. unfold Redis.find in He.
    destruct (db !! key) as [e'|] eqn:Hk; [|done].
    destruct (Redis.live now e') eqn:Hlive; [|done].
    exists (key, e'). split; [by apply elem_of_map_to_list|].
    simpl. by rewrite Hlive, Hp.
Qed.

Lemma NoDup_keys now db prefix : NoDup (Redis.keys now db prefix).
Proof.
  unfold Redis.keys. pose proof (NoDup_fst_map_to_list db) as Hnd.
  induction (map_to_list db) as [|[k e] l IH]; [constructor|].
  rewrite fmap_cons in Hnd. apply NoDup_cons in Hnd as [Hk Hnd].
  simpl. destruct (Redis.live now e && String.prefix prefix k); [|by apply IH].
  simpl. apply NoDup_cons. split; [|by apply IH].
  intros ([k' e']&Hin&Hsome)%list_elem_of_omap. simpl in Hsome.
  destruct (Redis.live now e' && String.prefix prefix k'); [|done].
  injection Hsome as ->. apply Hk. apply list_elem_of_fmap. by exists (k, e').
Qed.

Lemma keys_of_ids (l : list string) :
  Forall (λ key, String.prefix task_prefix key = true) l →
  ∃ ids, l = _get_key <$> ids.
Proof.
  induction 1 as [|key l Hp _ [ids ->]]; [by exists []|].
  apply prefix_inv in Hp as [tid ->]. by exists (tid :: ids).
Qed.

Lemma get_task_readable now db task_id :
  readable db → ∃ o, get_task now db task_id = Ok o.
Proof.
  intros Hdb. unfold get_task. case_bool_decide; [by eauto|].
  rewrite bool_decide_eq_true_2; [by eauto|].
  unfold Redis.hgetall.
  destruct (Redis.find now db (_get_key task_id)) as [e|] eqn:Hf;
    [|apply map_Forall_empty].
  apply find_Some_lookup in Hf. by apply (Hdb _ _ Hf).
Qed.

Lemma get_all_tasks_loop now db ids : ∀ tasks,
  Forall (λ tid, ¬ occurs task_prefix tid) ids →
  readable db →
  foldl (λ (tasks : result (list (gmap string pyval))) key,
           match tasks with
           | Raise e => Raise e
           | Ok tasks =>
               match get_task now db (str_remove key task_prefix) with
               | Raise e => Raise e
               | Ok None => Ok tasks
               | Ok (Some task) => Ok (tasks ++ [task])
               end
           end)
        (Ok tasks) (_get_key <$> ids)
  = Ok (tasks ++ omap (record now db) ids).
Proof.
  intros tasks Hids Hdb. revert tasks.
  induction Hids as [|tid ids Htid _ IH]; intros tasks.
  - simpl. by rewrite app_nil_r.
  - assert (str_remove (_get_key tid) task_prefix = tid) as Hid.
    { unfold str_remove, _get_key. rewrite remove_from_prefix by done.
      by apply remove_from_id. }
    destruct (get_task_readable now db tid Hdb) as [o Ho].
    assert (record now db tid = o) as Hrec by (unfold record; by rewrite Ho).
    simpl. rewrite Hid, Ho, Hrec.
    destruct o as [task|]; simpl; rewrite IH; [|done].
    by rewrite <- app_assoc.
Qed.

(** X9.  When no task id in the store contains the key prefix and every
    stored hash can be parsed, [RedisManager.get_all_tasks] returns one
    dictionary for each record there is, the one [get_task] returns for
    its id: the keys found are those of distinct task ids, the ids that
    have a record, and the result is the list of their records. *)
Theorem get_all_tasks_lists_records (now : Z) (db : gmap string Redis.entry) :
  (∀ task_id, is_Some (Redis.find now db (_get_key task_id)) →
              ¬ occurs task_prefix task_id) →
  readable db →
  ∃ ids,
    Redis.keys now db task_prefix = _get_key <$> ids ∧
    NoDup ids ∧
    (∀ task_id,
       task_id ∈ ids ↔ is_Some (Redis.find now db (_get_key task_id))) ∧
    RedisManager.get_all_tasks now db = Ok (omap (record now db) ids).
Proof.
  intros Hids Hdb.
  destruct (keys_of_ids (Redis.keys now db task_prefix)) as [ids Hkeys].
  { apply Forall_forall. by intros key [_ Hp]%elem_of_keys. }
  assert (∀ task_id,
            task_id ∈ ids ↔ is_Some (Redis.find now db (_get_key task_id)))
    as Hin.
  { intros tid. split.
    - intros Htid. apply (list_elem_of_fmap_2 _get_key) in Htid.
      rewrite <- Hkeys in Htid. by apply elem_of_keys in Htid as [? _].
    - intros Hf. assert (_get_key tid ∈ _get_key <$> ids) as Htid.
      { rewrite <- Hkeys. apply elem_of_keys. split; [done|].
        apply prefix_app. }
      apply list_elem_of_fmap in Htid as (tid'&Heq&Htid').
      by apply _get_key_inj in Heq as ->. }
  exists ids. split; [done|]. split; [|split; [done|]].
  - apply (NoDup_fmap_1 _get_key). rewrite <- Hkeys. apply NoDup_keys.
  - unfold RedisManager.get_all_tasks. rewrite Hkeys.
    apply (get_all_tasks_loop now db ids []); [|done].
    apply Forall_forall. intros tid Htid. by apply Hids, Hin.
Qed.

(* ------------------------------------------------------------------ *)
(** ** What the store holds in every state the process reaches *)
(* ------------------------------------------------------------------ *)

Lemma hash_fine_empty : hash_fine ∅.
Proof. split; [apply map_Forall_empty | by intros v]. Qed.

Lemma hash_fine_union m h : hash_fine m → hash_fine h → hash_fine (m ∪ h).
Proof.
  intros [Hm1 Hm2] [Hh1 Hh2]. split; [by apply parses_union|].
  intros v Hv. apply lookup_union_Some_raw in Hv as [Hv|[_ Hv]]; eauto.
Qed.

Lemma hash_fine_written (m : gmap string pyval) :
  map_Forall storable m →
  (∀ v, m !! "status" = Some v → ∃ s, v = PStr s ∧ s ∈ written_statuses) →
  hash_fine (to_redis m).
Proof.
  intros Hm Hs. split; [by apply to_redis_parses|].
  intros v. unfold to_redis. rewrite lookup_fmap.
  destruct (m !! "status") as [w|] eqn:Hw; [|done]. intros [= <-].
  destruct (Hs w eq_refl) as (s&->&Hin). by exists s.
Qed.

Lemma hgetall_fine now db key :
  store_fine db → hash_fine (Redis.hgetall now db key).
Proof.
  intros Hdb. unfold Redis.hgetall.
  destruct (Redis.find now db key) as [e|] eqn:Hf; [|apply hash_fine_empty].
  apply find_Some_lookup in Hf. by apply (Hdb _ _ Hf).
Qed.

Lemma store_fine_hset now db key m :
  store_fine db → hash_fine m →
  (∃ uid, key = _get_key (generate_task_id uid)) →
  store_fine (Redis.hset now db key m).
Proof.
  intros Hdb Hm Hkey k e. destruct (decide (key = k)) as [<-|Hne].
  - rewrite lookup_hset_eq. intros [= <-]. simpl. split; [|done].
    apply hash_fine_union; [done | by apply hgetall_fine].
  - rewrite lookup_hset_ne by done. apply Hdb.
Qed.

Lemma store_fine_expire now db key secs :
  store_fine db → store_fine (Redis.expire now db key secs).
Proof.
  intros Hdb k e He. destruct (decide (key = k)) as [<-|Hne].
  - apply lookup_expire_hash in He as (e0&He0&->). apply (Hdb _ _ He0).
  - rewrite lookup_expire_ne in He by done. by apply Hdb.
Qed.

Lemma store_fine_delete db key : store_fine db → store_fine (delete key db).
Proof.
  intros Hdb k e He. apply lookup_delete_Some in He as [_ He]. by apply Hdb.
Qed.

Lemma store_fine_update now db tid updates :
  store_fine db → hash_fine (to_redis updates) →
  (∃ uid, tid = generate_task_id uid) →
  store_fine (update_task now db tid updates).
Proof.
  intros Hdb Hm [uid ->]. apply store_fine_hset; [done|done|by exists uid].
Qed.

Lemma hash_fine_status (m : gmap string pyval) st :
  map_Forall storable m →
  m !! "status" = Some (PStr (status_value st)) → st ≠ COMPLETED →
  hash_fine (to_redis m).
Proof.
  intros Hm Hst Hc. apply hash_fine_written; [done|].
  intros v Hv. rewrite Hst in Hv. injection Hv as <-.
  eexists. split; [done|]. unfold written_statuses.
  destruct st; try done; simpl;
    repeat first [apply list_elem_of_here | apply list_elem_of_further].
Qed.

Lemma hash_fine_no_status (m : gmap string pyval) :
  map_Forall storable m → m !! "status" = None → hash_fine (to_redis m).
Proof.
  intros Hm Hst. apply hash_fine_written; [done|].
  intros v Hv. by rewrite Hst in Hv.
Qed.

Lemma status_dict_storable (st : TaskStatus) (k : string) (now : Z) :
  k ∈ ["started_at"; "stopped_at"] →
  map_Forall storable
    (list_to_map [("status", PStr (status_value st)); (k, PTime now)]
       : gmap string pyval).
Proof.
  intros Hk. simpl.
  apply map_Forall_insert_2; [by destruct st; eexists|].
  apply map_Forall_insert_2; [|apply map_Forall_empty].
  unfold storable, read_back. rewrite parse_field_plain; [by eexists|].
  apply elem_of_cons in Hk as [->|Hk];
    [|apply list_elem_of_singleton in Hk as ->];
    (split; [done | apply (bool_decide_unpack _); by vm_compute]).
Qed.

Lemma progress_dict_storable now iteration total successful failed stats :
  map_Forall storable
    (progress_dict now iteration total successful failed stats).
Proof.
  unfold progress_dict. simpl.
  repeat (apply map_Forall_insert_2; [by eexists|]).
  apply map_Forall_empty.
Qed.

Lemma error_dict_storable now e : map_Forall storable (error_dict now e).
Proof.
  unfold error_dict. simpl.
  repeat (apply map_Forall_insert_2; [by eexists|]).
  apply map_Forall_empty.
Qed.

Lemma progress_update_inv now iteration task response stats updates :
  progress_update now iteration task response stats = Ok updates →
  ∃ total successful failed,
    updates = progress_dict now iteration total successful failed stats.
Proof.
  unfold progress_update.
  destruct (get_plus task "total_requests" 1) as [t|]; [|done].
  destruct (get_plus task "successful_requests" _) as [s|]; [|done].
  destruct (get_plus task "failed_requests" _) as [f|]; [|done].
  intros [= <-]. by exists t, s, f.
Qed.

(** The three dictionaries a Runner writes, and those of the control
    commands, keep a hash fine. *)
Lemma fine_running now :
  hash_fine (to_redis (list_to_map
    [("status", PStr (status_value RUNNING)); ("started_at", PTime now)])).
Proof.
  apply (hash_fine_status _ RUNNING); [|done|done].
  apply status_dict_storable, list_elem_of_here.
Qed.

Lemma fine_stopped now :
  hash_fine (to_redis (list_to_map
    [("status", PStr (status_value STOPPED)); ("stopped_at", PTime now)])).
Proof.
  apply (hash_fine_status _ STOPPED); [|done|done].
  apply status_dict_storable, list_elem_of_further, list_elem_of_here.
Qed.

Lemma fine_error now e : hash_fine (to_redis (error_dict now e)).
Proof.
  apply (hash_fine_status _ ERROR); [apply error_dict_storable|done|done].
Qed.

Lemma fine_progress now iteration task response stats updates :
  progress_update now iteration task response stats = Ok updates →
  hash_fine (to_redis updates).
Proof.
  intros (t&s&f&->)%progress_update_inv.
  apply hash_fine_no_status; [apply progress_dict_storable | done].
Qed.

Lemma fine_created now db tid ph iv :
  hash_fine (to_redis (create_task now db tid ph iv).2).
Proof.
  apply (hash_fine_status _ PENDING);
    [apply create_task_data_storable|done|done].
Qed.

Lemma runner_step_fine ev now evs r db act :
  store_fine db → (∃ uid, r_task_id r = generate_task_id uid) →
  store_fine (_run_task_step ev now evs r db act).1.2.
Proof.
  intros Hdb Hid. unfold _run_task_step.
  destruct (r_pc r) as [| | |rest|svc rest|rest resp|rest resp task|rest|e|p| |e];
    simpl; try done.
  - destruct ev; simpl; try done;
      by apply store_fine_update; [|apply fine_running|].
  - by destruct ev.
  - by destruct (is_set evs (r_stop_event r)).
  - destruct rest; [done|]. by destruct (is_set evs (r_stop_event r)).
  - destruct ev as [|o|e]; try done.
    by destruct (count_response svc (send_request svc o) (r_services_stats r)).
  - destruct ev; try done;
      by destruct (get_task now db (r_task_id r)) as [[?|]|?].
  - destruct (progress_update now (r_iteration r) task resp
                (r_services_stats r)) as [updates|e] eqn:Hupd; [|done].
    apply fine_progress in Hupd.
    destruct ev; simpl; try done; by apply store_fine_update.
  - destruct ev; simpl; try done;
      by apply store_fine_update; [|apply fine_error|].
Qed.

Lemma create_task_fine now db uid ph iv :
  store_fine db →
  store_fine (create_task now db (generate_task_id uid) ph iv).1.
Proof.
  intros Hdb. unfold create_task. simpl.
  apply store_fine_expire, store_fine_hset; [done| |by exists uid].
  apply (fine_created now db (generate_task_id uid) ph iv).
Qed.

Lemma stop_task_redis tid σ :
  redis (stop_task tid σ).1 = redis σ ∨
  (is_Some (Redis.find (clock σ) (redis σ) (_get_key tid)) ∧
   redis (stop_task tid σ).1 =
     update_task (clock σ) (redis σ) tid
       (list_to_map [("status", PStr (status_value STOPPED));
                     ("stopped_at", PTime (clock σ))])).
Proof.
  unfold stop_task.
  destruct (get_task (clock σ) (redis σ) tid) as [[task|]|e] eqn:Hget;
    [|by left..].
  destruct (task !! "status") as [status|]; [|by left].
  case_bool_decide; [by left|].
  right. split.
  - apply get_task_Some in Hget as (e&He&_). by exists e.
  - by destruct (active_tasks σ !! tid).
Qed.

Lemma delete_task_redis tid σ :
  redis (delete_task tid σ).1 = redis σ ∨
  redis (delete_task tid σ).1 = delete (_get_key tid) (redis σ).
Proof.
  unfold delete_task.
  destruct (get_task (clock σ) (redis σ) tid) as [[task|]|e]; [|by left..].
  destruct (task !! "status") as [status|]; [|by left].
  case_bool_decide; [by left|]. right.
  unfold RedisManager.delete_task, Redis.del.
  by destruct (Redis.find (clock σ) (redis σ) (_get_key tid)).
Qed.

Lemma stop_task_threads tid σ : threads (stop_task tid σ).1 = threads σ.
Proof.
  unfold stop_task.
  destruct (get_task (clock σ) (redis σ) tid) as [[task|]|e]; [|done..].
  destruct (task !! "status") as [status|]; [|done].
  case_bool_decide; [done|]. by destruct (active_tasks σ !! tid).
Qed.

Lemma delete_task_threads tid σ : threads (delete_task tid σ).1 = threads σ.
Proof.
  unfold delete_task.
  destruct (get_task (clock σ) (redis σ) tid) as [[task|]|e]; [|done..].
  destruct (task !! "status") as [status|]; [|done].
  case_bool_decide; [done|].
  by destruct (RedisManager.delete_task (clock σ) (redis σ) tid).
Qed.

Lemma step_fine σ l : Fine σ → Fine (step σ l).
Proof.
  intros [Hdb Hth]. destruct l as [dt|uid ph iv|tid|tid|i ev]; simpl.
  - done.
  - unfold start_task.
    destruct (create_task (clock σ) (redis σ) (generate_task_id uid) ph iv)
      as [db' data] eqn:Hc.
    split; simpl.
    + assert (db' = (create_task (clock σ) (redis σ) (generate_task_id uid)
                       ph iv).1) as -> by by rewrite Hc.
      by apply create_task_fine.
    + apply Forall_app. split; [done|].
      apply Forall_singleton. by exists uid.
  - split; [|by rewrite stop_task_threads].
    destruct (stop_task_redis tid σ) as [->|[[e He] ->]]; [done|].
    apply find_Some_lookup in He. destruct (Hdb _ _ He) as [_ [uid Huid]].
    apply _get_key_inj in Huid as ->.
    apply store_fine_update; [done|apply fine_stopped|by exists uid].
  - split; [|by rewrite delete_task_threads].
    destruct (delete_task_redis tid σ) as [->| ->]; [done|].
    by apply store_fine_delete.
  - unfold run_thread. destruct (threads σ !! i) as [r|] eqn:Hi; [|done].
    assert (∃ uid, r_task_id r = generate_task_id uid) as Hr
      by by eapply (proj1 (Forall_lookup _ _) Hth).
    pose proof (runner_step_fine ev (clock σ) (events σ) r (redis σ)
                  (active_tasks σ) Hdb Hr) as Hdb'.
    pose proof (runner_step_task_id ev (clock σ) (events σ) r (redis σ)
                  (active_tasks σ)) as Hid.
    destruct (_run_task_step ev (clock σ) (events σ) r (redis σ)
                (active_tasks σ)) as [[r' db'] act']. simpl in *.
    split; simpl; [done|].
    apply Forall_insert; [done|]. by rewrite Hid.
Qed.

Lemma exec_fine tr : ∀ σ, Fine σ → Fine (exec tr σ).
Proof.
  induction tr as [|l tr IH]; intros σ Hσ; [done|].
  apply IH. by apply step_fine.
Qed.

Lemma Fine_initial : Fine initial.
Proof.
  split; [|apply Forall_nil_2].
  intros k e He. simpl in He. by rewrite lookup_empty in He.
Qed.

Lemma store_fine_readable db : store_fine db → readable db.
Proof. intros Hdb key e He. by apply (Hdb _ _ He). Qed.


Lemma written_statuses_plain s :
  s ∈ written_statuses → ¬ (s = "None" ∨ s = "").
Proof.
  revert s. apply Forall_forall. apply (bool_decide_unpack _). by vm_compute.
Qed.

Lemma completed_not_written : status_value COMPLETED ∉ written_statuses.
Proof. apply (bool_decide_unpack _). by vm_compute. Qed.

(** X11.  In these states the status of a record, if it has one, is
    pending, running, stopped or error: no record is ever marked
    completed. *)
Theorem status_never_completed (tr : list label) (task_id : string)
    (later : Z) (task : gmap string pyval) (status : pyval) :
  get_task later (redis (exec tr initial)) task_id = Ok (Some task) →
  task !! "status" = Some status →
  status ∈ PStr <$> written_statuses ∧
  status ≠ PStr (status_value COMPLETED).
Proof.
  intros Hget Hst.
  assert (status ∈ PStr <$> written_statuses) as Hin.
  { apply get_task_Some in Hget as (e&Hf&_&_&->).
    apply find_Some_lookup in Hf.
    destruct (exec_fine tr initial Fine_initial) as [Hdb _].
    destruct (Hdb _ _ Hf) as [[_ Hstatus] _].
    rewrite map_lookup_imap in Hst.
    destruct (Redis.e_hash e !! "status") as [v|] eqn:Hv; [|done].
    destruct (Hstatus v eq_refl) as (s&->&Hs). simpl in Hst.
    rewrite parse_field_plain in Hst
      by (split; [done | apply (bool_decide_unpack _); by vm_compute]).
    apply list_elem_of_fmap. exists s. split; [|done].
    case_bool_decide as Hnone; [|by injection Hst].
    by apply written_statuses_plain in Hs. }
  split; [done|]. intros ->.
  apply list_elem_of_fmap in Hin as (s&Heq&Hs). injection Heq as <-.
  by apply completed_not_written in Hs.
Qed.


(* ------------------------------------------------------------------ *)
(** ** Without a fault of the environment no task fails *)
(* ------------------------------------------------------------------ *)

Lemma no_error_hset now db key m :
  no_error db → m !! "status" ≠ Some (RStr (status_value ERROR)) →
  no_error (Redis.hset now db key m).
Proof.
  intros Hdb Hm k e. destruct (decide (key = k)) as [<-|Hne].
  - rewrite lookup_hset_eq. intros [= <-]. simpl.
    intros [Hs|[_ Hs]]%lookup_union_Some_raw; [done|].
    unfold Redis.hgetall in Hs.
    destruct (Redis.find now db key) as [e0|] eqn:Hf; [|done].
    apply find_Some_lookup in Hf. by apply (Hdb _ _ Hf).
  - rewrite lookup_hset_ne by done. apply Hdb.
Qed.

Lemma no_error_expire now db key secs :
  no_error db → no_error (Redis.expire now db key secs).
Proof.
  intros Hdb k e He. destruct (decide (key = k)) as [<-|Hne].
  - apply lookup_expire_hash in He as (e0&He0&->). apply (Hdb _ _ He0).
  - rewrite lookup_expire_ne in He by done. apply (Hdb _ _ He).
Qed.

Lemma no_error_delete db key : no_error db → no_error (delete key db).
Proof.
  intros Hdb k e He. apply lookup_delete_Some in He as [_ He].
  apply (Hdb _ _ He).
Qed.

Lemma complete_init : complete init_stats.
Proof. intros svc. rewrite init_stats_lookup. by eexists. Qed.

Lemma name_inj svc svc' : name svc = name svc' → svc = svc'.
Proof. by destruct svc, svc'. Qed.

Lemma count_response_complete svc response stats :
  complete stats →
  ∃ stats', count_response svc response stats = Ok stats' ∧ complete stats'.
Proof.
  intros Hc. unfold count_response. destruct (Hc svc) as [s ->].
  eexists. split; [done|]. intros svc'.
  destruct (decide (name svc = name svc')) as [<-|Hne].
  - rewrite lookup_insert_eq. by eexists.
  - rewrite lookup_insert_ne by done. apply Hc.
Qed.

Lemma progress_update_int now iteration task response stats :
  counters_int task →
  ∃ updates, progress_update now iteration task response stats = Ok updates.
Proof.
  intros Hc.
  destruct (Hc "total_requests") as [t Ht]; [set_solver|].
  destruct (Hc "successful_requests") as [s Hs]; [set_solver|].
  destruct (Hc "failed_requests") as [f Hf]; [set_solver|].
  eexists. by apply (progress_update_dict _ _ _ _ _ t s f).
Qed.

Lemma get_task_counters_int now db tid task :
  get_task now db tid = Ok (Some task) → counters_int task.
Proof. intros Hget k Hk. by eapply get_task_counter. Qed.

Lemma runner_step_calm ev now evs r db act :
  (∀ e, ev ≠ Fault e) →
  store_fine db → no_error db → thread_calm r →
  no_error (_run_task_step ev now evs r db act).1.2 ∧
  thread_calm (_run_task_step ev now evs r db act).1.1.
Proof.
  intros Hev Hfine Hdb [Hf Hr]. unfold thread_calm, _run_task_step.
  destruct (r_pc r) as [| | |rest|svc rest|rest resp|rest resp task|rest|e|p| |e]
    eqn:Hpc; simpl in *; try done.
  - destruct ev as [|o|e]; [| |by destruct (Hev e)]; simpl;
      (split; [by apply no_error_hset|]; split; [done|apply complete_init]).
  - destruct ev as [|o|e]; [| |by destruct (Hev e)]; by simpl.
  - destruct (is_set evs (r_stop_event r)); by simpl.
  - destruct rest; [by simpl|].
    destruct (is_set evs (r_stop_event r)); by simpl.
  - destruct ev as [|o|e]; simpl; try (by rewrite Hpc).
    destruct (count_response_complete svc (send_request svc o) _ Hr)
      as (stats'&->&Hc). by simpl.
  - destruct ev as [|o|e]; [| |by destruct (Hev e)];
      (destruct (get_task_readable now db (r_task_id r)
                   (store_fine_readable _ Hfine)) as [[task|] Hget];
       rewrite Hget; simpl; [|done];
       split; [done|]; split; [done|]; split; [|done];
       by eapply get_task_counters_int).
  - destruct Hr as [Hint Hc].
    destruct (progress_update_int now (r_iteration r) task resp
                (r_services_stats r) Hint) as [updates Hupd].
    rewrite Hupd. pose proof (progress_update_no_status _ _ _ _ _ _ Hupd) as Hs.
    destruct ev as [|o|e]; [| |by destruct (Hev e)]; simpl;
      (split; [|done]; apply no_error_hset; [done|]; by rewrite Hs).
  - by destruct p.
  - by rewrite Hpc.
Qed.

Lemma stop_task_calm tid σ : no_error (redis σ) → no_error (redis (stop_task tid σ).1).
Proof.
  intros Hdb. destruct (stop_task_redis tid σ) as [->|[_ ->]]; [done|].
  by apply no_error_hset.
Qed.

Lemma step_calm σ l : is_fault l = false → Calm σ → Calm (step σ l).
Proof.
  intros Hl (Hfine&Hdb&Hth).
  split; [by apply step_fine|].
  destruct l as [dt|uid ph iv|tid|tid|i ev]; simpl.
  - done.
  - unfold start_task.
    destruct (create_task (clock σ) (redis σ) (generate_task_id uid) ph iv)
      as [db' data] eqn:Hc.
    split; simpl.
    + assert (db' = (create_task (clock σ) (redis σ) (generate_task_id uid)
                       ph iv).1) as -> by by rewrite Hc.
      unfold create_task. simpl. by apply no_error_expire, no_error_hset.
    + apply Forall_app. split; [done|]. by apply Forall_singleton.
  - split; [by apply stop_task_calm | by rewrite stop_task_threads].
  - split; [|by rewrite delete_task_threads].
    destruct (delete_task_redis tid σ) as [->| ->]; [done|].
    by apply no_error_delete.
  - unfold run_thread. destruct (threads σ !! i) as [r|] eqn:Hi; [|done].
    assert (thread_calm r) as Hr by by eapply (proj1 (Forall_lookup _ _) Hth).
    assert (∀ e, ev ≠ Fault e) as Hev by by intros e ->.
    destruct (runner_step_calm ev (clock σ) (events σ) r (redis σ)
                (active_tasks σ) Hev (proj1 Hfine) Hdb Hr) as [Hdb' Hr'].
    destruct (_run_task_step ev (clock σ) (events σ) r (redis σ)
                (active_tasks σ)) as [[r' db'] act']. simpl in *.
    split; [done|]. by apply Forall_insert.
Qed.

Lemma exec_calm tr : ∀ σ,
  Forall (λ l, is_fault l = false) tr → Calm σ → Calm (exec tr σ).
Proof.
  induction tr as [|l tr IH]; intros σ Htr Hσ; [done|].
  apply Forall_cons in Htr as [Hl Htr]. apply IH; [done|]. by apply step_calm.
Qed.

Lemma Calm_initial : Calm initial.
Proof.
  split; [apply Fine_initial|]. split; [|apply Forall_nil_2].
  intros k e He. simpl in He. by rewrite lookup_empty in He.
Qed.


(* ------------------------------------------------------------------ *)
(** ** Stopping reaches the Runner *)
(* ------------------------------------------------------------------ *)

Lemma runner_step_stop_event ev now evs r db act :
  r_stop_event (_run_task_step ev now evs r db act).1.1 = r_stop_event r.
Proof.
  unfold _run_task_step.
  repeat (match goal with
          | |- context [match ?x with _ => _ end] => destruct x
          end; simpl; try done).
Qed.

Lemma runner_step_done ev now evs r db act :
  done_pc (r_pc r) = true → _run_task_step ev now evs r db act = (r, db, act).
Proof. unfold _run_task_step. by destruct (r_pc r). Qed.

Lemma runner_step_registry ev now evs r db act :
  (_run_task_step ev now evs r db act).2 = act ∨
  ((_run_task_step ev now evs r db act).2 = delete (r_task_id r) act ∧
   done_pc (r_pc (_run_task_step ev now evs r db act).1.1) = true).
Proof.
  unfold _run_task_step.
  destruct (r_pc r) as [| | |rest|svc rest|rest resp|rest resp task|rest|e|p| |e];
    simpl; try (by left).
  - destruct ev; by left.
  - destruct ev; by left.
  - destruct (is_set evs (r_stop_event r)); by left.
  - destruct rest; [by left|].
    destruct (is_set evs (r_stop_event r)); by left.
  - destruct ev as [|o|e]; try (by left).
    destruct (count_response svc (send_request svc o) (r_services_stats r));
      by left.
  - destruct ev; [| |by left];
      destruct (get_task now db (r_task_id r)) as [[?|]|?]; by left.
  - destruct (progress_update now (r_iteration r) task resp
                (r_services_stats r)); [|by left].
    destruct ev; by left.
  - destruct ev; by left.
  - case_bool_decide as Hreg.
    + right. split; [done | by destruct p].
    + left. done.
Qed.

Lemma stop_task_registry tid σ :
  (events (stop_task tid σ).1 = events σ ∧
   active_tasks (stop_task tid σ).1 = active_tasks σ ∧
   ∀ reply, (stop_task tid σ).2 = Ok reply → reply ≠ Done tid "stopped" ∨
            active_tasks σ !! tid = None) ∨
  (∃ h, active_tasks σ !! tid = Some h ∧
        events (stop_task tid σ).1 = <[h := true]> (events σ) ∧
        active_tasks (stop_task tid σ).1 = delete tid (active_tasks σ)).
Proof.
  unfold stop_task.
  destruct (get_task (clock σ) (redis σ) tid) as [[task|]|e];
    [|by left; repeat split; intros ? [= <-]; left..].
  destruct (task !! "status") as [status|]; [|by left].
  case_bool_decide; [by left; repeat split; intros ? [= <-]; left|].
  destruct (active_tasks σ !! tid) as [h|] eqn:Hreg; simpl.
  - right. by exists h.
  - left. repeat split. intros ? _. by right.
Qed.

Lemma step_reg σ l :
  Reg σ →
  (∀ uid ph iv, l = Start uid ph iv → generate_task_id uid ∉ task_ids σ) →
  Reg (step σ l).
Proof.
  intros (Hnd&Hlen&Hev&Hact&Hth) Hfresh.
  split.
  { rewrite task_ids_step. destruct l as [dt|uid ph iv|tid|tid|i ev]; simpl;
      rewrite ?(right_id_L [] (++)); try done.
    apply NoDup_app. split; [done|]. split; [|apply NoDup_singleton].
    intros x Hx ->%list_elem_of_singleton. by eapply Hfresh. }
  destruct l as [dt|uid ph iv|tid|tid|i ev]; simpl.
  - done.
  - (* start_task *)
    unfold start_task.
    destruct (create_task (clock σ) (redis σ) (generate_task_id uid) ph iv)
      as [db' data]. simpl.
    specialize (Hfresh uid ph iv eq_refl).
    split; [by rewrite !length_app, Hlen|]. split; [|split].
    + intros i r Hi. apply lookup_app_Some in Hi as [Hi|[Hge Hi]];
        [by apply Hev|].
      apply list_lookup_singleton_Some in Hi as [Hi <-]. simpl. lia.
    + intros tid h Hreg. destruct (decide (generate_task_id uid = tid))
        as [<-|Hne].
      * rewrite lookup_insert_eq in Hreg. injection Hreg as <-.
        eexists. split; [rewrite Hlen; by rewrite lookup_app_r, Nat.sub_diag|].
        done.
      * rewrite lookup_insert_ne in Hreg by done.
        destruct (Hact _ _ Hreg) as (r&Hr&Hid). exists r. split; [|done].
        by apply lookup_app_l_Some.
    + intros i r Hi Hpc. apply lookup_app_Some in Hi as [Hi|[Hge Hi]].
      * destruct (Hth i r Hi Hpc) as [Hset|Hreg];
          [left; by apply is_set_app|right].
        rewrite lookup_insert_ne; [done|]. intros Heq. apply Hfresh.
        rewrite Heq. apply list_elem_of_fmap. exists r. split; [done|].
        by eapply list_elem_of_lookup_2.
      * apply list_lookup_singleton_Some in Hi as [Hi <-]. simpl. right.
        rewrite lookup_insert_eq. f_equal. lia.
  - (* stop_task *)
    rewrite stop_task_threads.
    destruct (stop_task_registry tid σ) as [(->&->&_)|(h&Hreg&->&->)]; [done|].
    split; [by rewrite length_insert|]. split; [done|]. split.
    + intros tid' h' Hreg'. apply lookup_delete_Some in Hreg' as [_ Hreg'].
      by apply Hact.
    + intros i r Hi Hpc. destruct (Hth i r Hi Hpc) as [Hset|Hreg'];
        [left; by apply is_set_insert|].
      destruct (decide (tid = r_task_id r)) as [->|Hne].
      * left. assert (h = i) as -> by congruence.
        unfold is_set. rewrite list_lookup_insert_eq; [done|].
        rewrite Hlen. by eapply lookup_lt_Some.
      * right. by rewrite lookup_delete_ne.
  - (* delete_task *)
    rewrite delete_task_threads.
    assert (events (delete_task tid σ).1 = events σ ∧
            active_tasks (delete_task tid σ).1 = active_tasks σ) as [-> ->];
      [|done].
    unfold delete_task.
    destruct (get_task (clock σ) (redis σ) tid) as [[task|]|e]; [|done..].
    destruct (task !! "status") as [status|]; [|done].
    case_bool_decide; [done|].
    by destruct (RedisManager.delete_task (clock σ) (redis σ) tid).
  - (* a Runner step *)
    unfold run_thread. destruct (threads σ !! i) as [r|] eqn:Hi; [|done].
    pose proof (runner_step_task_id ev (clock σ) (events σ) r (redis σ)
                  (active_tasks σ)) as Hid.
    pose proof (runner_step_stop_event ev (clock σ) (events σ) r (redis σ)
                  (active_tasks σ)) as Hse.
    pose proof (runner_step_registry ev (clock σ) (events σ) r (redis σ)
                  (active_tasks σ)) as Hreg.
    pose proof (runner_step_done ev (clock σ) (events σ) r (redis σ)
                  (active_tasks σ)) as Hdone.
    destruct (_run_task_step ev (clock σ) (events σ) r (redis σ)
                (active_tasks σ)) as [[r' db'] act']. simpl in *.
    split; [by rewrite length_insert|]. split; [|split].
    + intros j rj Hj. destruct (decide (i = j)) as [<-|Hne].
      * rewrite list_lookup_insert_eq in Hj by by eapply lookup_lt_Some.
        injection Hj as <-. rewrite Hse. by apply Hev.
      * rewrite list_lookup_insert_ne in Hj by done. by apply Hev.
    + intros tid h Hh.
      assert (active_tasks σ !! tid = Some h) as Hh0.
      { destruct Hreg as [->|[-> _]]; [done|].
        by apply lookup_delete_Some in Hh as [_ Hh]. }
      destruct (Hact _ _ Hh0) as (rh&Hrh&Hidh).
      destruct (decide (i = h)) as [<-|Hne].
      * exists r'. split; [by apply list_lookup_insert_eq;
                            eapply lookup_lt_Some|].
        rewrite Hid. congruence.
      * exists rh. by rewrite list_lookup_insert_ne.
    + intros j rj Hj Hpc. destruct (decide (i = j)) as [<-|Hne].
      * rewrite list_lookup_insert_eq in Hj by by eapply lookup_lt_Some.
        injection Hj as <-.
        destruct (done_pc (r_pc r)) eqn:Hd.
        { specialize (Hdone eq_refl). injection Hdone as -> _ _. congruence. }
        destruct Hreg as [->|[_ Hd']]; [|congruence].
        rewrite Hid. by apply Hth.
      * rewrite list_lookup_insert_ne in Hj by done.
        destruct (Hth j rj Hj Hpc) as [Hset|Hrj]; [by left|right].
        destruct Hreg as [->|[-> _]]; [done|].
        rewrite lookup_delete_ne; [done|]. intros Heq.
        apply Hne. eapply (NoDup_lookup (task_ids σ)); [done| |];
          unfold task_ids; rewrite list_lookup_fmap.
        -- by rewrite Hi.
        -- by rewrite Hj, Heq.
Qed.

Lemma exec_reg tr : ∀ σ,
  Reg σ → NoDup (task_ids σ ++ started tr) → Reg (exec tr σ).
Proof.
  induction tr as [|l tr IH]; intros σ Hreg Hnd; [done|].
  simpl. apply IH.
  - apply step_reg; [done|]. intros uid ph iv ->. simpl in Hnd.
    apply NoDup_app in Hnd as (_&Hnd&_). intros Hin.
    apply (Hnd _ Hin). by left.
  - rewrite task_ids_step, <- (assoc_L (++)).
    replace (started [l] ++ started tr) with (started (l :: tr)); [done|].
    by destruct l.
Qed.

Lemma Reg_initial : Reg initial.
Proof.
  split; [apply NoDup_nil_2|]. split; [done|]. repeat split.
  - intros i r Hi. unfold initial in Hi. simpl in Hi.
    by rewrite lookup_nil in Hi.
  - intros tid h Hh. simpl in Hh. by rewrite lookup_empty in Hh.
  - intros i r Hi. unfold initial in Hi. simpl in Hi.
    by rewrite lookup_nil in Hi.
Qed.

(** X14.  As long as [generate_task_id] has not returned the same id
    twice, a [stop_task] that answers stopped has set the stop event of
    the Runner of that task, unless the Runner has returned already: the
    registry never loses the event of a Runner that is still at work. *)
Theorem stop_task_reaches_runner (tr : list label) (task_id : string)
    (i : nat) (r : runner) :
  NoDup (started tr) →
  (stop_task task_id (exec tr initial)).2 = Ok (Done task_id "stopped") →
  threads (exec tr initial) !! i = Some r →
  r_task_id r = task_id →
  threads (stop_task task_id (exec tr initial)).1 !! i = Some r ∧
  (done_pc (r_pc r) = true ∨
   is_set (events (stop_task task_id (exec tr initial)).1) (r_stop_event r)
     = true).
Proof.
  intros Hnd Hstop Hi Hid.
  destruct (exec_reg tr initial Reg_initial Hnd) as (_&Hlen&Hev&Hact&Hth).
  rewrite stop_task_threads. split; [done|].
  destruct (done_pc (r_pc r)) eqn:Hd; [by left|right].
  rewrite (Hev i r Hi).
  destruct (stop_task_registry task_id (exec tr initial))
    as [(->&_&Hrep)|(h&Hreg&->&_)].
  - destruct (Hth i r Hi Hd) as [Hset|Hreg]; [done|].
    destruct (Hrep _ Hstop) as [Hne|Hnone]; [done|]. congruence.
  - destruct (Hth i r Hi Hd) as [Hset|Hreg']; [by apply is_set_insert|].
    assert (h = i) as -> by congruence.
    unfold is_set. rewrite list_lookup_insert_eq; [done|].
    rewrite Hlen. by eapply lookup_lt_Some.
Qed.

(* ------------------------------------------------------------------ *)
(** ** A task id drawn again *)
(* ------------------------------------------------------------------ *)

Lemma delete_task_registry tid σ :
  events (delete_task tid σ).1 = events σ ∧
  active_tasks (delete_task tid σ).1 = active_tasks σ.
Proof.
  unfold delete_task.
  destruct (get_task (clock σ) (redis σ) tid) as [[task|]|e]; [|done..].
  destruct (task !! "status") as [status|]; [|done].
  case_bool_decide; [done|].
  by destruct (RedisManager.delete_task (clock σ) (redis σ) tid).
Qed.

Lemma run_thread_events i ev σ : events (run_thread i ev σ) = events σ.
Proof.
  unfold run_thread. destruct (threads σ !! i) as [r|]; [|done].
  by destruct (_run_task_step ev (clock σ) (events σ) r (redis σ)
                 (active_tasks σ)) as [[r' db'] act'].
Qed.

Lemma run_thread_registry i ev σ tid h :
  active_tasks (run_thread i ev σ) !! tid = Some h →
  active_tasks σ !! tid = Some h.
Proof.
  unfold run_thread. destruct (threads σ !! i) as [r|]; [|done].
  pose proof (runner_step_registry ev (clock σ) (events σ) r (redis σ)
                (active_tasks σ)) as Hreg.
  destruct (_run_task_step ev (clock σ) (events σ) r (redis σ)
              (active_tasks σ)) as [[r' db'] act']. simpl in *.
  destruct Hreg as [->|[-> _]]; [done|].
  by intros [_ ?]%lookup_delete_Some.
Qed.

Lemma out_of_reach_step σ h l : out_of_reach σ h → out_of_reach (step σ l) h.
Proof.
  intros (Hlt&Hset&Hreg). destruct l as [dt|uid ph iv|tid|tid|i ev]; simpl.
  - done.
  - unfold start_task.
    destruct (create_task (clock σ) (redis σ) (generate_task_id uid) ph iv)
      as [db' data]. split; simpl; [rewrite length_app; lia|]. split.
    + unfold is_set in *. by rewrite lookup_app_l.
    + intros tid. destruct (decide (generate_task_id uid = tid)) as [<-|Hne].
      * rewrite lookup_insert_eq. intros [= Heq]. lia.
      * rewrite lookup_insert_ne by done. apply Hreg.
  - destruct (stop_task_registry tid σ) as [(He&Ha&_)|(h'&Hh'&He&Ha)];
      unfold out_of_reach; rewrite He, Ha; [done|].
    assert (h' ≠ h) as Hne by (intros ->; by apply (Hreg tid)).
    split; [by rewrite length_insert|]. split.
    + unfold is_set in *. by rewrite list_lookup_insert_ne.
    + intros tid' [_ Hreg']%lookup_delete_Some. by apply (Hreg tid').
  - destruct (delete_task_registry tid σ) as [He Ha].
    unfold out_of_reach. by rewrite He, Ha.
  - unfold out_of_reach. rewrite run_thread_events.
    split; [done|]. split; [done|].
    intros tid Hh. apply run_thread_registry in Hh. by apply (Hreg tid).
Qed.

Lemma out_of_reach_exec tr : ∀ σ h,
  out_of_reach σ h → out_of_reach (exec tr σ) h.
Proof.
  induction tr as [|l tr IH]; intros σ h Hσ; [done|].
  simpl. by apply IH, out_of_reach_step.
Qed.

(** X15.  When [start_task] draws the task id of a task that is
    registered, the stop event of the earlier task is replaced in the
    registry and lost: if it was not set it will never be, whatever
    commands follow, so the Runner that waits for it cannot be
    stopped. *)
Theorem reused_id_unstoppable (σ : state) (uid phone_number : string)
    (interval : Z) (h : nat) (tr : list label) :
  active_tasks σ !! generate_task_id uid = Some h →
  (∀ tid, active_tasks σ !! tid = Some h → tid = generate_task_id uid) →
  (h < length (events σ))%nat →
  is_set (events σ) h = false →
  is_set (events (exec (Start uid phone_number interval :: tr) σ)) h = false ∧
  ∀ tid, active_tasks (exec (Start uid phone_number interval :: tr) σ) !! tid
           ≠ Some h.
Proof.
  intros Hreg Hinj Hlt Hset.
  assert (out_of_reach (step σ (Start uid phone_number interval)) h) as Hout.
  { simpl. unfold start_task.
    destruct (create_task (clock σ) (redis σ) (generate_task_id uid)
                phone_number interval) as [db' data].
    split; simpl; [rewrite length_app; lia|]. split.
    - unfold is_set in *. by rewrite lookup_app_l.
    - intros tid. destruct (decide (generate_task_id uid = tid)) as [<-|Hne].
      + rewrite lookup_insert_eq. intros [= Heq]. lia.
      + rewrite lookup_insert_ne by done. intros Hh.
        by apply Hinj in Hh. }
  apply (out_of_reach_exec tr) in Hout as (_&Hs&Ha). by split.
Qed.

(* ------------------------------------------------------------------ *)
(** ** After the stop event is set *)
(* ------------------------------------------------------------------ *)

Lemma runner_step_rank ev now evs r db act :
  is_set evs (r_stop_event r) = true →
  (rank (r_pc (_run_task_step ev now evs r db act).1.1) ≤ rank (r_pc r))%nat ∧
  ((∃ o, ev = Http o) →
   (rank (r_pc (_run_task_step ev now evs r db act).1.1)
    ≤ rank (r_pc r) - 1)%nat) ∧
  (counting (r_pc r) = false →
   counting (r_pc (_run_task_step ev now evs r db act).1.1) = false ∧
   counted (_run_task_step ev now evs r db act).1.1 = counted r).
Proof.
  intros Hset. unfold _run_task_step. rewrite Hset.
  destruct (r_pc r) as [| | |rest|svc rest|rest resp|rest resp task|rest|e|p| |e]
    eqn:Hpc; simpl.
  - destruct ev; simpl; repeat split; try done; lia.
  - destruct ev; simpl; repeat split; try done; lia.
  - repeat split; try done; lia.
  - destruct rest; simpl; repeat split; try done; lia.
  - destruct ev as [|o|e]; simpl; rewrite ?Hpc; simpl;
      try (repeat split; try done; try lia; by intros [? ?]).
    destruct (count_response svc (send_request svc o) (r_services_stats r));
      simpl; repeat split; try done; lia.
  - destruct ev; simpl;
      try (destruct (get_task now db (r_task_id r)) as [[?|]|?]; simpl);
      repeat split; try done; lia.
  - destruct (progress_update now (r_iteration r) task resp
                (r_services_stats r)); [destruct ev|]; simpl;
      repeat split; try done; lia.
  - repeat split; try done; lia.
  - destruct ev; simpl; repeat split; try done; lia.
  - destruct p; simpl; repeat split; try done; lia.
  - rewrite Hpc. simpl. repeat split; try done; lia.
  - rewrite Hpc. simpl. repeat split; try done; lia.
Qed.

Lemma step_other_thread σ l i r :
  threads σ !! i = Some r →
  (∀ ev, l ≠ Run i ev) →
  threads (step σ l) !! i = Some r.
Proof.
  intros Hi Hl. destruct l as [dt|uid ph iv|tid|tid|j ev]; simpl.
  - done.
  - unfold start_task.
    destruct (create_task (clock σ) (redis σ) (generate_task_id uid) ph iv)
      as [db' data]. simpl. by apply lookup_app_l_Some.
  - by rewrite stop_task_threads.
  - by rewrite delete_task_threads.
  - unfold run_thread. destruct (threads σ !! j) as [rj|] eqn:Hj; [|done].
    destruct (_run_task_step ev (clock σ) (events σ) rj (redis σ)
                (active_tasks σ)) as [[r' db'] act']. simpl.
    rewrite list_lookup_insert_ne; [done|]. intros ->. by apply (Hl ev).
Qed.

Lemma step_is_set σ l h :
  is_set (events σ) h = true → is_set (events (step σ l)) h = true.
Proof.
  intros Hset. destruct l as [dt|uid ph iv|tid|tid|j ev]; simpl.
  - done.
  - unfold start_task.
    destruct (create_task (clock σ) (redis σ) (generate_task_id uid) ph iv)
      as [db' data]. simpl. by apply is_set_app.
  - destruct (stop_task_registry tid σ) as [(->&_)|(h'&_&->&_)]; [done|].
    by apply is_set_insert.
  - by destruct (delete_task_registry tid σ) as [-> _].
  - by rewrite run_thread_events.
Qed.

Lemma http_runs_one i l :
  http_runs i [l] = if is_http_run i l then 1%nat else 0%nat.
Proof.
  unfold http_runs. destruct (is_http_run i l) eqn:Hl.
  - by rewrite filter_cons_True.
  - rewrite filter_cons_False; [done | by rewrite Hl].
Qed.

Lemma stopping_step σ l i r :
  threads σ !! i = Some r →
  is_set (events σ) (r_stop_event r) = true →
  ∃ r', threads (step σ l) !! i = Some r' ∧
        r_stop_event r' = r_stop_event r ∧
        is_set (events (step σ l)) (r_stop_event r') = true ∧
        (rank (r_pc r') ≤ rank (r_pc r) - http_runs i [l])%nat ∧
        (counting (r_pc r) = false →
         counting (r_pc r') = false ∧ counted r' = counted r).
Proof.
  intros Hi Hset.
  assert ((∃ ev, l = Run i ev) ∨ ¬ ∃ ev, l = Run i ev) as [[ev ->]|Hl].
  { destruct l as [| | | |j ev]; try (right; by intros [? ?]).
    destruct (decide (j = i)) as [->|Hne]; [left; by exists ev|].
    right. intros [? [= ? ?]]. done. }
  - pose proof (runner_step_rank ev (clock σ) (events σ) r (redis σ)
                  (active_tasks σ) Hset) as (Hle&Hlt&Hcnt).
    pose proof (runner_step_stop_event ev (clock σ) (events σ) r (redis σ)
                  (active_tasks σ)) as Hse.
    pose proof (step_is_set σ (Run i ev) _ Hset) as Hset'.
    simpl in *. unfold run_thread in *. rewrite Hi in *.
    destruct (_run_task_step ev (clock σ) (events σ) r (redis σ)
                (active_tasks σ)) as [[r' db'] act']. simpl in *.
    exists r'. split; [apply list_lookup_insert_eq; by eapply lookup_lt_Some|].
    split; [done|]. split; [by rewrite Hse|]. split; [|done].
    rewrite http_runs_one. destruct ev as [|o|e]; simpl; [lia| |lia].
    rewrite bool_decide_eq_true_2 by done. apply Hlt. by exists o.
  - exists r. split; [apply step_other_thread; [done|]; intros ev ->;
                      apply Hl; by exists ev|].
    split; [done|]. split; [by apply step_is_set|]. split; [|done].
    assert (http_runs i [l] = 0%nat) as ->; [|lia].
    rewrite http_runs_one. destruct l as [| | | |j [|o|e]]; try done. simpl.
    rewrite bool_decide_eq_false_2; [done|]. intros ->. apply Hl. by eexists.
Qed.

Lemma http_runs_cons i l tr :
  http_runs i (l :: tr) = (http_runs i [l] + http_runs i tr)%nat.
Proof.
  rewrite http_runs_one. unfold http_runs.
  destruct (is_http_run i l) eqn:Hl.
  - by rewrite filter_cons_True.
  - rewrite filter_cons_False; [done | by rewrite Hl].
Qed.

Lemma stopping_exec i tr : ∀ σ r,
  threads σ !! i = Some r →
  is_set (events σ) (r_stop_event r) = true →
  ∃ r', threads (exec tr σ) !! i = Some r' ∧
        (rank (r_pc r') ≤ rank (r_pc r) - http_runs i tr)%nat ∧
        (counting (r_pc r) = false →
         counting (r_pc r') = false ∧ counted r' = counted r).
Proof.
  induction tr as [|l tr IH]; intros σ r Hi Hset.
  - exists r. split; [done|]. split; [unfold http_runs; simpl; lia | done].
  - destruct (stopping_step σ l i r Hi Hset) as (r1&Hi1&Hse&Hset1&Hrank&Hcnt).
    destruct (IH (step σ l) r1 Hi1 Hset1) as (r'&Hi'&Hrank'&Hcnt').
    exists r'. split; [done|]. split.
    + rewrite http_runs_cons. lia.
    + intros Hc. destruct (Hcnt Hc) as [Hc1 Heq1].
      destruct (Hcnt' Hc1) as [Hc' Heq']. split; [done|congruence].
Qed.

(** X16.  Once the stop event of a Runner is set, the Runner returns
    within seven of its steps (steps in which the HTTP exchange it may
    be waiting for returns), whatever the other Runners and the commands
    do in between; and unless it was about to send a request or had not
    started, it counts nothing more: its iteration number, statistics
    and counters stay as they were. *)
Theorem stop_event_ends_runner (σ : state) (i : nat) (r : runner)
    (tr : list label) :
  threads σ !! i = Some r →
  is_set (events σ) (r_stop_event r) = true →
  (7 ≤ http_runs i tr)%nat →
  ∃ r', threads (exec tr σ) !! i = Some r' ∧
        done_pc (r_pc r') = true ∧
        (counting (r_pc r) = false → counted r' = counted r).
Proof.
  intros Hi Hset Hruns.
  destruct (stopping_exec i tr σ r Hi Hset) as (r'&Hi'&Hrank&Hcnt).
  exists r'. split; [done|]. split; [|by intros Hc; apply Hcnt].
  assert (rank (r_pc r) ≤ 7)%nat by (destruct (r_pc r); simpl; lia).
  assert (rank (r_pc r') = 0%nat) as H0 by lia.
  by destruct (r_pc r').
Qed.

(* ------------------------------------------------------------------ *)
(** ** A Runner that writes after its record is gone *)
(* ------------------------------------------------------------------ *)

Lemma runner_update_running now :
  runner_update (list_to_map
    [("status", PStr (status_value RUNNING)); ("started_at", PTime now)]).
Proof.
  split; [|split; [|done]].
  - intros Heq. by apply (f_equal (lookup "status")) in Heq.
  - apply status_dict_storable, list_elem_of_here.
Qed.

Lemma runner_update_progress now iteration total successful failed stats :
  runner_update (progress_dict now iteration total successful failed stats).
Proof.
  split; [|split; [|done]].
  - intros Heq. by apply (f_equal (lookup "iterations")) in Heq.
  - apply progress_dict_storable.
Qed.

Lemma runner_update_error now e : runner_update (error_dict now e).
Proof.
  split; [|split; [|done]].
  - intros Heq. by apply (f_equal (lookup "status")) in Heq.
  - apply error_dict_storable.
Qed.

Lemma runner_step_write ev now evs r db act :
  (_run_task_step ev now evs r db act).1.2 = db ∨
  ∃ updates,
    (_run_task_step ev now evs r db act).1.2
      = update_task now db (r_task_id r) updates ∧
    runner_update updates.
Proof.
  unfold _run_task_step.
  destruct (r_pc r) as [| | |rest|svc rest|rest resp|rest resp task|rest|e|p| |e];
    simpl; try (by left).
  - destruct ev; simpl; try (by left);
      right; eexists; split; try done; apply runner_update_running.
  - destruct ev; by left.
  - destruct (is_set evs (r_stop_event r)); by left.
  - destruct rest; [by left|].
    destruct (is_set evs (r_stop_event r)); by left.
  - destruct ev as [|o|e]; try (by left).
    destruct (count_response svc (send_request svc o) (r_services_stats r));
      by left.
  - destruct ev; [| |by left];
      destruct (get_task now db (r_task_id r)) as [[?|]|?]; by left.
  - destruct (progress_update now (r_iteration r) task resp
                (r_services_stats r)) as [updates|e] eqn:Hupd; [|by left].
    apply progress_update_inv in Hupd as (t&s&f&->).
    destruct ev; simpl; try (by left);
      right; eexists; split; try done; apply runner_update_progress.
  - destruct ev; simpl; try (by left);
      right; eexists; split; try done; apply runner_update_error.
Qed.

Lemma get_task_fresh_update now db tid updates later :
  Redis.find now db (_get_key tid) = None →
  updates ≠ ∅ → map_Forall storable updates →
  get_task later (update_task now db tid updates) tid
    = Ok (Some (map_imap parse_field (to_redis updates))).
Proof.
  intros Hf Hne Hst. destruct (to_redis_nonempty _ Hne) as (k0&v0&Hk0).
  unfold get_task, update_task. rewrite hgetall_hset_fresh by done.
  rewrite bool_decide_eq_false_2.
  - by rewrite bool_decide_eq_true_2 by by apply to_redis_parses.
  - intros Hempty. by rewrite Hempty in Hk0.
Qed.

Lemma lookup_parsed_written (updates : gmap string pyval) k :
  map_imap parse_field (to_redis updates) !! k = updates !! k ≫= read_back k.
Proof.
  rewrite map_lookup_imap. unfold to_redis. rewrite lookup_fmap.
  by destruct (updates !! k).
Qed.

Lemma get_all_tasks_raised now db keys e :
  foldl (λ (tasks : result (list (gmap string pyval))) key,
           match tasks with
           | Raise e => Raise e
           | Ok tasks =>
               match get_task now db (str_remove key task_prefix) with
               | Raise e => Raise e
               | Ok None => Ok tasks
               | Ok (Some task) => Ok (tasks ++ [task])
               end
           end)
        (Raise e) keys = Raise e.
Proof. by induction keys. Qed.

Lemma get_all_tasks_contains now db key tid task keys : ∀ acc,
  (key ∈ keys ∨ task ∈ acc) →
  str_remove key task_prefix = tid →
  get_task now db tid = Ok (Some task) →
  match
    foldl (λ (tasks : result (list (gmap string pyval))) key,
             match tasks with
             | Raise e => Raise e
             | Ok tasks =>
                 match get_task now db (str_remove key task_prefix) with
                 | Raise e => Raise e
                 | Ok None => Ok tasks
                 | Ok (Some task) => Ok (tasks ++ [task])
                 end
             end)
          (Ok acc) keys
  with
  | Ok tasks => task ∈ tasks
  | Raise _ => True
  end.
Proof.
  induction keys as [|k keys IH]; intros acc Hin Hid Hget.
  - simpl. destruct Hin as [Hin|Hin]; [by apply elem_of_nil in Hin | done].
  - simpl.
    destruct (get_task now db (str_remove k task_prefix)) as [[t|]|e] eqn:Hk.
    + apply IH; [|done|done].
      destruct Hin as [Hin|Hin]; [|right; apply elem_of_app; by left].
      apply elem_of_cons in Hin as [->|Hin]; [|by left].
      right. apply elem_of_app. right. rewrite Hid, Hget in Hk.
      injection Hk as ->. apply list_elem_of_here.
    + apply IH; [|done|done].
      destruct Hin as [Hin|Hin]; [|by right].
      apply elem_of_cons in Hin as [->|Hin]; [|by left].
      rewrite Hid, Hget in Hk. done.
    + by rewrite get_all_tasks_raised.
Qed.

Lemma task_summaries_raise tasks task :
  task ∈ tasks → task !! "task_id" = None →
  ∃ e, task_summaries tasks = Raise e.
Proof.
  intros Hin Hno. induction tasks as [|t tasks IH];
    [by apply elem_of_nil in Hin|].
  simpl. apply elem_of_cons in Hin as [<-|Hin].
  - unfold task_summary. rewrite Hno. by eexists.
  - destruct (task_summary t); [|by eexists].
    destruct (IH Hin) as [e ->]. by eexists.
Qed.

(** X17.  A Runner step that writes while the record of its task is
    gone (deleted or expired) brings a record back that holds the
    Runner's fields alone, without task id, phone number or creation
    time, and that never expires; as long as it is there,
    [TaskManager.get_all_tasks] fails, whatever other records the
    store holds. *)
Theorem write_after_delete_breaks_listing (σ : state) (i : nat) (r : runner)
    (ev : env) :
  threads σ !! i = Some r →
  Redis.find (clock σ) (redis σ) (_get_key (r_task_id r)) = None →
  redis (run_thread i ev σ) ≠ redis σ →
  ¬ occurs task_prefix (r_task_id r) →
  ∃ task,
    (∀ later,
       get_task later (redis (run_thread i ev σ)) (r_task_id r)
         = Ok (Some task)) ∧
    task !! "task_id" = None ∧
    task !! "phone_number" = None ∧
    task !! "created_at" = None ∧
    ∀ dt, ∃ e,
      TaskManager.get_all_tasks (step (run_thread i ev σ) (Tick dt)) = Raise e.
Proof.
  intros Hi Hf Hchange Hid.
  assert (∃ updates,
            redis (run_thread i ev σ)
              = update_task (clock σ) (redis σ) (r_task_id r) updates ∧
            runner_update updates) as (updates&Hdb&Hne&Hst&H1&H2&H3).
  { unfold run_thread in *. rewrite Hi in *.
    destruct (runner_step_write ev (clock σ) (events σ) r (redis σ)
                (active_tasks σ)) as [Hsame|Hw];
      destruct (_run_task_step ev (clock σ) (events σ) r (redis σ)
                  (active_tasks σ)) as [[r' db'] act']; simpl in *; done. }
  assert (∀ later,
            get_task later (redis (run_thread i ev σ)) (r_task_id r)
            = Ok (Some (map_imap parse_field (to_redis updates)))) as Hget.
  { intros later. rewrite Hdb. by apply get_task_fresh_update. }
  exists (map_imap parse_field (to_redis updates)).
  split; [done|].
  split; [by rewrite lookup_parsed_written, H1|].
  split; [by rewrite lookup_parsed_written, H2|].
  split; [by rewrite lookup_parsed_written, H3|].
  intros dt. unfold TaskManager.get_all_tasks, RedisManager.get_all_tasks.
  simpl.
  set (now := clock (run_thread i ev σ) + Z.of_N dt).
  pose proof (get_all_tasks_contains now (redis (run_thread i ev σ))
                (_get_key (r_task_id r)) (r_task_id r)
                (map_imap parse_field (to_redis updates))
                (Redis.keys now (redis (run_thread i ev σ)) task_prefix) [])
    as Hloop.
  destruct (foldl _ _ _) as [tasks|e]; [|by eexists].
  apply (task_summaries_raise _ (map_imap parse_field (to_redis updates))).
  - apply Hloop.
    + left. apply elem_of_keys. split; [|apply prefix_app].
      specialize (Hget now). apply get_task_Some in Hget as (e&He&_).
      by exists e.
    + unfold str_remove, _get_key. rewrite remove_from_prefix by done.
      by apply remove_from_id.
    + apply Hget.
  - by rewrite lookup_parsed_written, H1.
Qed.


(* ------------------------------------------------------------------ *)
(** ** A Runner whose record has expired *)
(* ------------------------------------------------------------------ *)

Lemma find_None_later now later db key :
  now ≤ later → Redis.find now db key = None → Redis.find later db key = None.
Proof.
  intros Hle Hf. destruct (Redis.find later db key) as [e|] eqn:He; [|done].
  apply (find_mono now later) in He; [congruence | done].
Qed.

Lemma get_task_absent now db tid :
  Redis.find now db (_get_key tid) = None → get_task now db tid = Ok None.
Proof. intros Hf. unfold get_task, Redis.hgetall. by rewrite Hf. Qed.

Lemma create_task_other now db tid ph iv key :
  key ≠ _get_key tid →
  Redis.find now (create_task now db tid ph iv).1 key = Redis.find now db key.
Proof.
  intros Hne. apply find_lookup_eq. unfold create_task. simpl.
  rewrite lookup_expire_ne by done. by rewrite lookup_hset_ne.
Qed.

Lemma lost_runner_step ev now evs r db act :
  (∀ e, ev ≠ Fault e) →
  looping (r_pc r) = true →
  thread_calm r →
  is_set evs (r_stop_event r) = false →
  Redis.find now db (_get_key (r_task_id r)) = None →
  (_run_task_step ev now evs r db act).1.2 = db ∧
  looping (r_pc (_run_task_step ev now evs r db act).1.1) = true.
Proof.
  intros Hev Hloop [_ Hcalm] Hset Hf. unfold _run_task_step. rewrite Hset.
  destruct (r_pc r) as [| | |rest|svc rest|rest resp|rest resp task|rest|e|p| |e]
    eqn:Hpc; simpl in *; try done.
  - destruct ev as [|o|e]; [done|done|by destruct (Hev e)].
  - by destruct rest.
  - destruct ev as [|o|e]; simpl; rewrite ?Hpc; try done.
    by destruct (count_response_complete svc (send_request svc o) _ Hcalm)
      as (stats'&->&_).
  - rewrite (get_task_absent _ _ _ Hf).
    destruct ev as [|o|e]; [done|done|by destruct (Hev e)].
Qed.

Lemma lost_step σ l i tid :
  Reg σ → Calm σ → lost σ i tid →
  is_fault l = false →
  (∀ uid ph iv, l = Start uid ph iv → generate_task_id uid ∉ task_ids σ) →
  lost (step σ l) i tid.
Proof.
  intros (Hnd&Hlen&Hev&Hact&_) (_&_&Hcalm) (r&Hi&Hid&Hloop&Hset&Hf) Hl Hfresh.
  assert (tid ∈ task_ids σ) as Hin.
  { unfold task_ids. apply list_elem_of_fmap. exists r. split; [done|].
    by eapply list_elem_of_lookup_2. }
  destruct l as [dt|uid ph iv|tid'|tid'|j ev]; simpl.
  - exists r. repeat split; try done. simpl.
    apply (find_None_later (clock σ)); [lia | done].
  - specialize (Hfresh uid ph iv eq_refl).
    exists r. unfold start_task.
    destruct (create_task (clock σ) (redis σ) (generate_task_id uid) ph iv)
      as [db' data] eqn:Hc. simpl.
    split; [by apply lookup_app_l_Some|]. split; [done|]. split; [done|].
    split.
    + unfold is_set in *. rewrite lookup_app_l; [done|].
      rewrite Hlen. by eapply lookup_lt_Some.
    + assert (db' = (create_task (clock σ) (redis σ) (generate_task_id uid)
                       ph iv).1) as -> by by rewrite Hc.
      rewrite <- Hf.
      apply (create_task_other (clock σ) (redis σ) (generate_task_id uid)
               ph iv (_get_key tid)).
      intros Heq. apply _get_key_inj in Heq. congruence.
  - exists r. rewrite stop_task_threads. split; [done|]. split; [done|].
    split; [done|].
    destruct (decide (tid' = tid)) as [->|Hne].
    + assert (stop_task tid σ = (σ, Ok (NotFound tid))) as ->; [|done].
      unfold stop_task. by rewrite (get_task_absent _ _ _ Hf).
    + split.
      * destruct (stop_task_registry tid' σ) as [(->&_)|(h&Hh&->&_)]; [done|].
        unfold is_set in *. rewrite list_lookup_insert_ne; [done|].
        intros ->. destruct (Hact _ _ Hh) as (r'&Hr'&Hid'). congruence.
      * assert (clock (stop_task tid' σ).1 = clock σ) as ->.
        { unfold stop_task.
          destruct (get_task (clock σ) (redis σ) tid') as [[task|]|e];
            [|done..].
          destruct (task !! "status") as [status|]; [|done].
          case_bool_decide; [done|]. by destruct (active_tasks σ !! tid'). }
        destruct (stop_task_redis tid' σ) as [->|[_ ->]]; [done|].
        unfold update_task. rewrite find_hset_ne; [done|].
        intros Heq. by apply _get_key_inj in Heq.
  - exists r. rewrite delete_task_threads. split; [done|]. split; [done|].
    split; [done|].
    destruct (delete_task_registry tid' σ) as [-> _]. split; [done|].
    assert (clock (delete_task tid' σ).1 = clock σ) as ->.
    { unfold delete_task.
      destruct (get_task (clock σ) (redis σ) tid') as [[task|]|e]; [|done..].
      destruct (task !! "status") as [status|]; [|done].
      case_bool_decide; [done|].
      by destruct (RedisManager.delete_task (clock σ) (redis σ) tid'). }
    destruct (delete_task_redis tid' σ) as [->| ->]; [done|].
    unfold Redis.find in *.
    destruct (decide (_get_key tid' = _get_key tid)) as [->|Hne].
    + by rewrite lookup_delete_eq.
    + by rewrite lookup_delete_ne.
  - assert (∀ e, ev ≠ Fault e) as Hnf by by intros e ->.
    unfold lost, run_thread.
    destruct (threads σ !! j) as [rj|] eqn:Hj; [|by exists r].
    destruct (decide (j = i)) as [->|Hne].
    + assert (rj = r) as -> by congruence.
      assert (thread_calm r) as Hr
        by by eapply (proj1 (Forall_lookup _ _) Hcalm).
      assert (is_set (events σ) (r_stop_event r) = false) as Hset0
        by by rewrite (Hev i r Hi).
      assert (Redis.find (clock σ) (redis σ) (_get_key (r_task_id r)) = None)
        as Hf0 by by rewrite Hid.
      pose proof (lost_runner_step ev (clock σ) (events σ) r (redis σ)
                    (active_tasks σ) Hnf Hloop Hr Hset0 Hf0) as [Hdb Hloop'].
      pose proof (runner_step_task_id ev (clock σ) (events σ) r (redis σ)
                    (active_tasks σ)) as Hid'.
      destruct (_run_task_step ev (clock σ) (events σ) r (redis σ)
                  (active_tasks σ)) as [[r' db'] act']. simpl in *.
      exists r'. split; [apply list_lookup_insert_eq; by eapply lookup_lt_Some|].
      subst db'. split; [congruence|]. by repeat split.
    + pose proof (runner_step_other_keys ev (clock σ) (events σ) rj (redis σ)
                    (active_tasks σ) (_get_key tid)) as Hother.
      destruct (_run_task_step ev (clock σ) (events σ) rj (redis σ)
                  (active_tasks σ)) as [[r' db'] act']. simpl in *.
      exists r. split; [by rewrite list_lookup_insert_ne|].
      repeat split; try done.
      rewrite <- Hf. apply find_lookup_eq, Hother.
      intros Heq. apply _get_key_inj in Heq. apply Hne.
      eapply (NoDup_lookup (task_ids σ)); [done| |];
        unfold task_ids; rewrite list_lookup_fmap.
      * by rewrite Hj.
      * rewrite Hi. simpl. congruence.
Qed.

Lemma lost_exec tr : ∀ σ i tid,
  Reg σ → Calm σ → lost σ i tid →
  Forall (λ l, is_fault l = false) tr →
  NoDup (task_ids σ ++ started tr) →
  lost (exec tr σ) i tid.
Proof.
  induction tr as [|l tr IH]; intros σ i tid Hreg Hcalm Hlost Hnf Hnd; [done|].
  apply Forall_cons in Hnf as [Hl Hnf].
  assert (∀ uid ph iv, l = Start uid ph iv →
            generate_task_id uid ∉ task_ids σ) as Hfresh.
  { intros uid ph iv ->. simpl in Hnd.
    apply NoDup_app in Hnd as (_&Hnd&_). intros Hin.
    apply (Hnd _ Hin). by left. }
  simpl. apply IH.
  - by apply step_reg.
  - by apply step_calm.
  - by apply lost_step.
  - done.
  - rewrite task_ids_step, <- (assoc_L (++)).
    replace (started [l] ++ started tr) with (started (l :: tr)); [done|].
    by destruct l.
Qed.

Lemma started_app tr tr' : started (tr ++ tr') = started tr ++ started tr'.
Proof. unfold started. apply omap_app. Qed.

Lemma task_ids_exec tr : ∀ σ, task_ids (exec tr σ) = task_ids σ ++ started tr.
Proof.
  induction tr as [|l tr IH]; intros σ; simpl.
  - by rewrite (right_id_L [] (++)).
  - rewrite IH, task_ids_step, <- (assoc_L (++)).
    f_equal. by destruct l.
Qed.

(** X19.  While no fault of the environment occurs and no task id is
    drawn twice: once the record of a task is gone (it expires 24 hours
    after creation) while its Runner is in its loop with the stop event
    not set, the Runner stays in its loop for ever, whatever commands
    follow: [stop_task] answers not found for the task, and the stop
    event is never set. *)
Theorem expired_task_unstoppable (tr0 tr : list label) (i : nat) (r : runner) :
  NoDup (started (tr0 ++ tr)) →
  Forall (λ l, is_fault l = false) (tr0 ++ tr) →
  threads (exec tr0 initial) !! i = Some r →
  looping (r_pc r) = true →
  is_set (events (exec tr0 initial)) (r_stop_event r) = false →
  Redis.find (clock (exec tr0 initial)) (redis (exec tr0 initial))
    (_get_key (r_task_id r)) = None →
  let σ' := exec tr (exec tr0 initial) in
  stop_task (r_task_id r) σ' = (σ', Ok (NotFound (r_task_id r))) ∧
  is_set (events σ') (r_stop_event r) = false ∧
  ∃ r', threads σ' !! i = Some r' ∧ looping (r_pc r') = true.
Proof.
  intros Hnd Hnf Hi Hloop Hset Hf σ'.
  rewrite started_app in Hnd. apply Forall_app in Hnf as [Hnf0 Hnf].
  assert (Reg (exec tr0 initial)) as Hreg.
  { apply exec_reg; [apply Reg_initial|]. by apply NoDup_app in Hnd as [? _]. }
  assert (Calm (exec tr0 initial)) as Hcalm
    by (apply exec_calm; [done | apply Calm_initial]).
  assert (r_stop_event r = i) as Hh
    by (destruct Hreg as (_&_&Hev&_); by apply Hev).
  rewrite Hh in *.
  assert (lost (exec tr0 initial) i (r_task_id r)) as Hlost by by exists r.
  apply (lost_exec tr) in Hlost as (r'&Hi'&Hid'&Hloop'&Hset'&Hf');
    [|done|done|done|by rewrite task_ids_exec].
  fold σ' in Hi', Hset', Hf'. split; [|split; [done|by exists r']].
  unfold stop_task. by rewrite (get_task_absent _ _ _ Hf').
Qed.

(* ------------------------------------------------------------------ *)
(** ** One pass of the Runner *)
(* ------------------------------------------------------------------ *)

Lemma run_task_steps_app envs envs' now evs r db act :
  _run_task_steps (envs ++ envs') now evs r db act =
    _run_task_steps envs' now evs
      (_run_task_steps envs now evs r db act).1.1
      (_run_task_steps envs now evs r db act).1.2
      (_run_task_steps envs now evs r db act).2.
Proof.
  unfold _run_task_steps. rewrite foldl_app.
  by destruct (foldl _ (r, db, act) envs) as [[r' db'] act'].
Qed.

Lemma get_task_after_update now db tid updates task :
  get_task now db tid = Ok (Some task) →
  updates ≠ ∅ → map_Forall storable updates →
  ∃ task',
    get_task now (update_task now db tid updates) tid = Ok (Some task') ∧
    ∀ k, task' !! k = match updates !! k with
                      | Some v => read_back k v
                      | None => task !! k
                      end.
Proof.
  intros Hget Hne Hst.
  destruct (get_task_parses _ _ _ _ Hget) as [Hp ->].
  destruct (to_redis_nonempty _ Hne) as (k0&v0&Hk0).
  eexists. split.
  - unfold update_task.
    by apply (get_task_hset _ _ _ _ k0 v0); [|apply to_redis_parses|].
  - intros k. by apply lookup_parsed_union.
Qed.

Lemma request_round now evs r db act svc rest o stats' task t s f :
  r_pc r = AtFor (svc :: rest) →
  is_set evs (r_stop_event r) = false →
  count_response svc (send_request svc o) (r_services_stats r) = Ok stats' →
  get_task now db (r_task_id r) = Ok (Some task) →
  get_or task "total_requests" (PInt 0) = PInt t →
  get_or task "successful_requests" (PInt 0) = PInt s →
  get_or task "failed_requests" (PInt 0) = PInt f →
  let b := success (send_request svc o) in
  _run_task_steps (request_envs o) now evs r db act =
    (set_locals (r_iteration r) stats' (r_total_requests r + 1)
       (r_successful r + bit b) (r_failed r + bit (negb b)) (AtFor rest) r,
     update_task now db (r_task_id r)
       (progress_dict now (r_iteration r) (t + 1) (s + bit b)
          (f + bit (negb b)) stats'),
     act).
Proof.
  intros Hpc Hset Hcount Hget Ht Hs Hf b.
  set (r' := set_locals (r_iteration r) stats' (r_total_requests r + 1)
               (r_successful r + bit b) (r_failed r + bit (negb b))).
  assert (_run_task_step Quiet now evs r db act
          = (set_pc (AtSend svc rest) r, db, act)) as H1.
  { unfold _run_task_step. by rewrite Hpc, Hset. }
  assert (_run_task_step (Http o) now evs (set_pc (AtSend svc rest) r) db act
          = (r' (AtGet rest (send_request svc o)) r, db, act)) as H2.
  { unfold _run_task_step. simpl. rewrite Hcount. unfold r', b.
    by destruct (success (send_request svc o)); simpl;
      rewrite ?Z.add_0_r. }
  assert (_run_task_step Quiet now evs
            (r' (AtGet rest (send_request svc o)) r) db act
          = (r' (AtUpdate rest (send_request svc o) task) r, db, act)) as H3.
  { unfold _run_task_step. simpl. by rewrite Hget. }
  assert (_run_task_step Quiet now evs
            (r' (AtUpdate rest (send_request svc o) task) r) db act
          = (r' (AtWait rest) r,
             update_task now db (r_task_id r)
               (progress_dict now (r_iteration r) (t + 1) (s + bit b)
                  (f + bit (negb b)) stats'), act)) as H4.
  { unfold _run_task_step. simpl.
    rewrite (progress_update_dict _ _ _ _ _ t s f) by done.
    unfold b. by destruct (success (send_request svc o)). }
  assert (∀ db0, _run_task_step Quiet now evs (r' (AtWait rest) r) db0 act
                 = (r' (AtFor rest) r, db0, act)) as H5 by done.
  unfold _run_task_steps, request_envs. simpl.
  rewrite H1. simpl. rewrite H2. simpl. rewrite H3. simpl. rewrite H4. simpl.
  by rewrite H5.
Qed.

Lemma progress_dict_read now iteration total successful failed stats
    (task task' : gmap string pyval) :
  (∀ k, task' !! k =
        match progress_dict now iteration total successful failed stats !! k
        with
        | Some v => read_back k v
        | None => task !! k
        end) →
  task' !! "iterations" = Some (PInt iteration) ∧
  task' !! "total_requests" = Some (PInt total) ∧
  task' !! "successful_requests" = Some (PInt successful) ∧
  task' !! "failed_requests" = Some (PInt failed) ∧
  task' !! "services_stats" = Some (PDict stats) ∧
  task' !! "status" = task !! "status".
Proof. intros H. by rewrite !H. Qed.

Lemma get_or_lookup (task : gmap string pyval) k v d :
  task !! k = Some v → get_or task k d = v.
Proof. intros H. unfold get_or. by rewrite H. Qed.

(** X20.  One pass of the Runner's loop, run without interruption on a
    task that has a record and whose stop event is not set: the three
    services are called in order; the Runner is back at the test of the
    [while] with its iteration number one higher and its own counters
    for this pass alone (three requests, of which the successes and the
    failures), while the record's counters have grown by these numbers;
    the record shows the new iteration number and the Runner's
    statistics, and keeps its status. *)
Theorem runner_pass (now : Z) (evs : list bool) (r : runner)
    (db : gmap string Redis.entry) (act : gmap string nat)
    (o1 o2 o3 : http_outcome) (task : gmap string pyval) :
  r_pc r = AtWhile →
  is_set evs (r_stop_event r) = false →
  complete (r_services_stats r) →
  get_task now db (r_task_id r) = Ok (Some task) →
  let k := bit (success (send_request HungamaService o1))
           + bit (success (send_request ShemarooMeService o2))
           + bit (success (send_request UnacademyService o3)) in
  ∃ r' db' task' t s f,
    _run_task_steps (pass_envs o1 o2 o3) now evs r db act = (r', db', act) ∧
    r_pc r' = AtWhile ∧
    r_iteration r' = r_iteration r + 1 ∧
    r_total_requests r' = 3 ∧ r_successful r' = k ∧ r_failed r' = 3 - k ∧
    sum_success (r_services_stats r') = sum_success (r_services_stats r) + k ∧
    sum_failed (r_services_stats r')
      = sum_failed (r_services_stats r) + (3 - k) ∧
    get_or task "total_requests" (PInt 0) = PInt t ∧
    get_or task "successful_requests" (PInt 0) = PInt s ∧
    get_or task "failed_requests" (PInt 0) = PInt f ∧
    get_task now db' (r_task_id r) = Ok (Some task') ∧
    task' !! "iterations" = Some (PInt (r_iteration r + 1)) ∧
    task' !! "total_requests" = Some (PInt (t + 3)) ∧
    task' !! "successful_requests" = Some (PInt (s + k)) ∧
    task' !! "failed_requests" = Some (PInt (f + (3 - k))) ∧
    task' !! "services_stats" = Some (PDict (r_services_stats r')) ∧
    task' !! "status" = task !! "status".
Proof.
  intros Hpc Hset Hc0 Hget0 k.
  set (b1 := success (send_request HungamaService o1)) in *.
  set (b2 := success (send_request ShemarooMeService o2)) in *.
  set (b3 := success (send_request UnacademyService o3)) in *.
  destruct (get_task_counter _ _ _ _ "total_requests" ltac:(set_solver) Hget0)
    as [t Ht].
  destruct (get_task_counter _ _ _ _ "successful_requests"
              ltac:(set_solver) Hget0) as [s Hs].
  destruct (get_task_counter _ _ _ _ "failed_requests"
              ltac:(set_solver) Hget0) as [f Hf].
  (* the statistics after each request *)
  destruct (count_response_complete HungamaService
              (send_request HungamaService o1) _ Hc0) as (st1&Hst1&Hc1).
  destruct (count_response_complete ShemarooMeService
              (send_request ShemarooMeService o2) _ Hc1) as (st2&Hst2&Hc2).
  destruct (count_response_complete UnacademyService
              (send_request UnacademyService o3) _ Hc2) as (st3&Hst3&_).
  pose proof (count_response_sums _ _ _ _ Hst1) as [Hss1 Hsf1].
  pose proof (count_response_sums _ _ _ _ Hst2) as [Hss2 Hsf2].
  pose proof (count_response_sums _ _ _ _ Hst3) as [Hss3 Hsf3].
  fold b1 in Hss1, Hsf1. fold b2 in Hss2, Hsf2. fold b3 in Hss3, Hsf3.
  (* the Runner at the head of the [for] *)
  set (r0 := set_locals (r_iteration r + 1) (r_services_stats r) 0 0 0
               (AtFor SERVICES) r).
  assert (_run_task_steps [Quiet] now evs r db act = (r0, db, act)) as H0.
  { unfold _run_task_steps. simpl. unfold _run_task_step.
    by rewrite Hpc, Hset. }
  (* first request *)
  pose proof (request_round now evs r0 db act HungamaService
                [ShemarooMeService; UnacademyService] o1 st1 task t s f
                eq_refl Hset Hst1 Hget0 Ht Hs Hf) as H1.
  simpl in H1. fold b1 in H1.
  set (u1 := progress_dict now (r_iteration r + 1) (t + 1) (s + bit b1)
               (f + bit (negb b1)) st1) in *.
  destruct (runner_update_progress now (r_iteration r + 1) (t + 1)
              (s + bit b1) (f + bit (negb b1)) st1) as (Hne1&Hstor1&_).
  destruct (get_task_after_update now db (r_task_id r) u1 task Hget0 Hne1 Hstor1)
    as (task1&Hget1&Hk1).
  apply progress_dict_read in Hk1 as (_&Ht1&Hs1&Hf1&_&Hstatus1).
  (* second request *)
  set (r1 := set_locals (r_iteration r + 1) st1 (0 + 1) (0 + bit b1)
               (0 + bit (negb b1)) (AtFor [ShemarooMeService; UnacademyService])
               r0) in *.
  pose proof (request_round now evs r1 _ act ShemarooMeService
                [UnacademyService] o2 st2 task1 (t + 1) (s + bit b1)
                (f + bit (negb b1)) eq_refl Hset Hst2 Hget1
                (get_or_lookup _ _ _ _ Ht1) (get_or_lookup _ _ _ _ Hs1)
                (get_or_lookup _ _ _ _ Hf1)) as H2.
  simpl in H2. fold b2 in H2.
  set (db1 := update_task now db (r_task_id r) u1) in *.
  set (u2 := progress_dict now (r_iteration r + 1) (t + 1 + 1)
               (s + bit b1 + bit b2) (f + bit (negb b1) + bit (negb b2)) st2)
    in *.
  destruct (runner_update_progress now (r_iteration r + 1) (t + 1 + 1)
              (s + bit b1 + bit b2) (f + bit (negb b1) + bit (negb b2)) st2)
    as (Hne2&Hstor2&_).
  destruct (get_task_after_update now db1 (r_task_id r) u2 task1 Hget1 Hne2
              Hstor2) as (task2&Hget2&Hk2).
  apply progress_dict_read in Hk2 as (_&Ht2&Hs2&Hf2&_&Hstatus2).
  (* third request *)
  set (r2 := set_locals (r_iteration r + 1) st2 (0 + 1 + 1)
               (0 + bit b1 + bit b2) (0 + bit (negb b1) + bit (negb b2))
               (AtFor [UnacademyService]) r1) in *.
  pose proof (request_round now evs r2 _ act UnacademyService [] o3 st3 task2
                (t + 1 + 1) (s + bit b1 + bit b2)
                (f + bit (negb b1) + bit (negb b2)) eq_refl Hset Hst3 Hget2
                (get_or_lookup _ _ _ _ Ht2) (get_or_lookup _ _ _ _ Hs2)
                (get_or_lookup _ _ _ _ Hf2)) as H3.
  simpl in H3. fold b3 in H3.
  set (db2 := update_task now db1 (r_task_id r) u2) in *.
  set (u3 := progress_dict now (r_iteration r + 1) (t + 1 + 1 + 1)
               (s + bit b1 + bit b2 + bit b3)
               (f + bit (negb b1) + bit (negb b2) + bit (negb b3)) st3) in *.
  destruct (runner_update_progress now (r_iteration r + 1) (t + 1 + 1 + 1)
              (s + bit b1 + bit b2 + bit b3)
              (f + bit (negb b1) + bit (negb b2) + bit (negb b3)) st3)
    as (Hne3&Hstor3&_).
  destruct (get_task_after_update now db2 (r_task_id r) u3 task2 Hget2 Hne3
              Hstor3) as (task3&Hget3&Hk3).
  apply progress_dict_read in Hk3 as (Hit3&Ht3&Hs3&Hf3&Hstats3&Hstatus3).
  set (r3 := set_locals (r_iteration r + 1) st3 (0 + 1 + 1 + 1)
               (0 + bit b1 + bit b2 + bit b3)
               (0 + bit (negb b1) + bit (negb b2) + bit (negb b3))
               (AtFor []) r2) in *.
  exists (set_pc AtWhile r3), (update_task now db2 (r_task_id r) u3),
    task3, t, s, f.
  assert (bit (negb b1) + bit (negb b2) + bit (negb b3) = 3 - k) as Hk
    by (unfold k; by destruct b1, b2, b3).
  split.
  { unfold pass_envs. rewrite run_task_steps_app, H0. cbv [fst snd].
    rewrite run_task_steps_app, H1. cbv [fst snd].
    rewrite run_task_steps_app, H2. cbv [fst snd].
    rewrite run_task_steps_app, H3. cbv [fst snd]. done. }
  simpl. repeat split; try done.
  - rewrite Hss3, Hss2, Hss1. unfold k. ring.
  - rewrite Hsf3, Hsf2, Hsf1, <- Hk. ring.
  - rewrite Ht3. do 2 f_equal. ring.
  - rewrite Hs3. do 2 f_equal. unfold k. ring.
  - rewrite Hf3, <- Hk. do 2 f_equal. ring.
  - congruence.
Qed.

(* ------------------------------------------------------------------ *)
(** ** Listing the tasks when nothing has been deleted *)
(* ------------------------------------------------------------------ *)

Lemma identified_union tid (m h : gmap string rval) :
  m !! "task_id" = None → m !! "phone_number" = None →
  m !! "created_at" = None →
  identified tid h → identified tid (m ∪ h).
Proof.
  intros H1 H2 H3 (Hn&Hid&Hph&Hc&Hs). split; [done|].
  rewrite !lookup_union_r by done. repeat split; try done.
  apply lookup_union_is_Some. by right.
Qed.

Lemma store_kept_update now ids db tid (updates : gmap string pyval) :
  now < 86400 →
  store_kept ids db →
  is_Some (db !! _get_key tid) →
  updates !! "task_id" = None → updates !! "phone_number" = None →
  updates !! "created_at" = None →
  store_kept ids (update_task now db tid updates).
Proof.
  intros Hnow [Hdb Hids] [e He] H1 H2 H3.
  destruct (Hdb _ _ He) as (tid'&d&Hkey&Hin&Hident&Hd&Hle).
  apply _get_key_inj in Hkey as <-.
  assert (Redis.find now db (_get_key tid) = Some e) as Hf.
  { unfold Redis.find, Redis.live. rewrite He, Hd.
    by rewrite (proj2 (Z.ltb_lt _ _)) by lia. }
  unfold update_task. split.
  - intros key e'. destruct (decide (_get_key tid = key)) as [<-|Hne].
    + rewrite lookup_hset_eq. unfold Redis.hgetall. rewrite Hf.
      intros [= <-]. simpl. exists tid, d.
      split; [done|]. split; [done|]. split; [|done].
      apply identified_union; try done;
        unfold to_redis; rewrite lookup_fmap;
        by rewrite ?H1, ?H2, ?H3.
    + rewrite lookup_hset_ne by done. apply Hdb.
  - intros tid' Hin'. destruct (decide (_get_key tid = _get_key tid'))
      as [<-|Hne].
    + rewrite lookup_hset_eq. by eexists.
    + rewrite lookup_hset_ne by done. by apply Hids.
Qed.

Lemma generate_task_id_not_none uid : generate_task_id uid ∉ ["None"; ""].
Proof.
  unfold generate_task_id. rewrite !not_elem_of_cons.
  repeat split; [| |apply not_elem_of_nil];
    cbv [String.append]; discriminate.
Qed.

Lemma store_kept_create now ids db uid ph iv :
  0 ≤ now →
  store_kept ids db →
  store_kept (ids ++ [generate_task_id uid])
    (create_task now db (generate_task_id uid) ph iv).1.
Proof.
  intros Hnow [Hdb Hids].
  pose proof (create_task_find now db (generate_task_id uid) ph iv) as Hf.
  apply find_Some_lookup in Hf.
  assert (∀ key, key ≠ _get_key (generate_task_id uid) →
            (create_task now db (generate_task_id uid) ph iv).1 !! key
            = db !! key) as Hother.
  { intros key Hne. unfold create_task. simpl.
    rewrite lookup_expire_ne by done. by rewrite lookup_hset_ne. }
  split.
  - intros key e.
    destruct (decide (key = _get_key (generate_task_id uid))) as [->|Hne].
    + rewrite Hf. intros [= <-]. simpl.
      exists (generate_task_id uid), (now + 86400).
      split; [done|]. split; [apply elem_of_app; right; apply list_elem_of_here|].
      split; [|split; [done|lia]].
      split; [apply generate_task_id_not_none|].
      split; [by apply lookup_union_Some_l|].
      split; [eexists; by apply lookup_union_Some_l|].
      split; [eexists; by apply lookup_union_Some_l|].
      apply lookup_union_is_Some. left. by eexists.
    + rewrite Hother by done. intros He.
      destruct (Hdb _ _ He) as (tid&d&Hkey&Hin&Hrest). exists tid, d.
      split; [done|]. split; [|done]. apply elem_of_app. by left.
  - intros tid [Hin|Hin%list_elem_of_singleton]%elem_of_app.
    + destruct (decide (_get_key tid = _get_key (generate_task_id uid)))
        as [->|Hne]; [by rewrite Hf|].
      rewrite Hother by done. by apply Hids.
    + subst tid. by rewrite Hf.
Qed.

Lemma run_thread_clock i ev σ : clock (run_thread i ev σ) = clock σ.
Proof.
  unfold run_thread. destruct (threads σ !! i) as [r|]; [|done].
  by destruct (_run_task_step ev (clock σ) (events σ) r (redis σ)
                 (active_tasks σ)) as [[r' db'] act'].
Qed.

Lemma stop_task_clock tid σ : clock (stop_task tid σ).1 = clock σ.
Proof.
  unfold stop_task.
  destruct (get_task (clock σ) (redis σ) tid) as [[task|]|e]; [|done..].
  destruct (task !! "status") as [status|]; [|done].
  case_bool_decide; [done|]. by destruct (active_tasks σ !! tid).
Qed.

Lemma step_kept σ l :
  Kept σ → is_delete l = false → clock (step σ l) < 86400 →
  Kept (step σ l).
Proof.
  intros [Hclock Hdb] Hl Hnow. unfold Kept. rewrite task_ids_step.
  destruct l as [dt|uid ph iv|tid|tid|i ev]; simpl in *;
    rewrite ?(right_id_L [] (++)); try done.
  - split; [lia|done].
  - split; [done|]. by apply store_kept_create.
  - rewrite stop_task_clock in *. split; [done|].
    destruct (stop_task_redis tid σ) as [->|[[e He] ->]]; [done|].
    apply store_kept_update; try done.
    apply find_Some_lookup in He. by eexists.
  - rewrite run_thread_clock in *. split; [done|].
    unfold run_thread. destruct (threads σ !! i) as [r|] eqn:Hi; [|done].
    pose proof (runner_step_write ev (clock σ) (events σ) r (redis σ)
                  (active_tasks σ)) as Hw.
    destruct (_run_task_step ev (clock σ) (events σ) r (redis σ)
                (active_tasks σ)) as [[r' db'] act']. simpl in *.
    destruct Hw as [->|(updates&->&_&_&H1&H2&H3)]; [done|].
    apply store_kept_update; try done.
    apply (proj2 Hdb). unfold task_ids. apply list_elem_of_fmap.
    exists r. split; [done|]. by eapply list_elem_of_lookup_2.
Qed.

Lemma step_clock_le σ l : clock σ ≤ clock (step σ l).
Proof.
  destruct l as [dt|uid ph iv|tid|tid|i ev]; simpl.
  - lia.
  - unfold start_task.
    by destruct (create_task (clock σ) (redis σ) (generate_task_id uid) ph iv).
  - by rewrite stop_task_clock.
  - unfold delete_task.
    destruct (get_task (clock σ) (redis σ) tid) as [[task|]|e]; [|done..].
    destruct (task !! "status") as [status|]; [|done].
    case_bool_decide; [done|].
    by destruct (RedisManager.delete_task (clock σ) (redis σ) tid).
  - by rewrite run_thread_clock.
Qed.

Lemma exec_clock_le tr : ∀ σ, clock σ ≤ clock (exec tr σ).
Proof.
  induction tr as [|l tr IH]; intros σ; [done|].
  simpl. etrans; [apply (step_clock_le σ l) | apply IH].
Qed.


Lemma Kept_initial : Kept initial.
Proof.
  split; [done|]. split.
  - intros key e He. simpl in He. by rewrite lookup_empty in He.
  - intros tid Hin. by apply elem_of_nil in Hin.
Qed.





(* ------------------------------------------------------------------ *)
(** ** A task that has just been started *)
(* ------------------------------------------------------------------ *)



(* ------------------------------------------------------------------ *)
(** ** Tasks do not touch each other's records *)
(* ------------------------------------------------------------------ *)

Lemma get_task_lookup_eq now db db' tid :
  db' !! _get_key tid = db !! _get_key tid →
  get_task now db' tid = get_task now db tid.
Proof.
  intros Heq. unfold get_task, Redis.hgetall.
  by rewrite (find_lookup_eq now db db' _ Heq).
Qed.

(** X23.  A step of the process changes no record but that of the
    task id it is about: a command leaves the records of all other ids
    as they are, and so does a Runner step for all ids but its own;
    read at any time, before and after the step, they are the same. *)
Theorem step_frame (σ : state) (l : label) (task_id : string) (later : Z) :
  ¬ concerns σ l task_id →
  get_task later (redis (step σ l)) task_id
    = get_task later (redis σ) task_id.
Proof.
  intros Hl. apply get_task_lookup_eq.
  destruct l as [dt|uid ph iv|tid|tid|i ev]; simpl in *.
  - done.
  - unfold start_task.
    destruct (create_task (clock σ) (redis σ) (generate_task_id uid) ph iv)
      as [db' data] eqn:Hc. simpl.
    assert (db' = (create_task (clock σ) (redis σ) (generate_task_id uid)
                     ph iv).1) as -> by by rewrite Hc.
    unfold create_task. simpl.
    assert (_get_key (generate_task_id uid) ≠ _get_key task_id) as Hne
      by (intros Heq; by apply _get_key_inj in Heq).
    rewrite lookup_expire_ne by done. by rewrite lookup_hset_ne.
  - assert (_get_key tid ≠ _get_key task_id) as Hne
      by (intros Heq; by apply _get_key_inj in Heq).
    destruct (stop_task_redis tid σ) as [->|[_ ->]]; [done|].
    unfold update_task. by rewrite lookup_hset_ne.
  - assert (_get_key tid ≠ _get_key task_id) as Hne
      by (intros Heq; by apply _get_key_inj in Heq).
    destruct (delete_task_redis tid σ) as [->| ->]; [done|].
    by rewrite lookup_delete_ne.
  - unfold run_thread. destruct (threads σ !! i) as [r|] eqn:Hi; [|done].
    pose proof (runner_step_other_keys ev (clock σ) (events σ) r (redis σ)
                  (active_tasks σ) (_get_key task_id)) as Hother.
    destruct (_run_task_step ev (clock σ) (events σ) r (redis σ)
                (active_tasks σ)) as [[r' db'] act']. simpl in *.
    apply Hother. intros Heq. apply _get_key_inj in Heq.
    apply Hl. by exists r.
Qed.

(* ------------------------------------------------------------------ *)
(** ** The counters of a record never go down *)
(* ------------------------------------------------------------------ *)

Lemma counters3_untouched (m : gmap string rval) k :
  untouched m → k ∈ counters3 → m !! k = None.
Proof.
  intros Hm Hk. unfold untouched in Hm.
  apply (proj1 (Forall_forall _ _) Hm). unfold counter_keys.
  unfold counters3 in Hk.
  apply elem_of_cons in Hk as [->|Hk]; [apply list_elem_of_here|].
  apply list_elem_of_further.
  apply elem_of_cons in Hk as [->|Hk]; [apply list_elem_of_here|].
  apply list_elem_of_further.
  apply list_elem_of_singleton in Hk as ->. apply list_elem_of_here.
Qed.

Lemma hcount_union_untouched (m h : gmap string rval) k :
  m !! k = None → hcount (m ∪ h) k = hcount h k.
Proof. intros Hm. unfold hcount. by rewrite lookup_union_r. Qed.

Lemma counters_same_refl db key : counters_same db db key.
Proof. intros e He. by exists e. Qed.

Lemma counters_same_grow db db' key :
  counters_same db db' key → counters_grow db db' key.
Proof.
  intros Hs e e' k n n' He He' Hk Hn Hn'.
  destruct (Hs _ He') as (e0&He0&Heq). rewrite (Heq _ Hk) in Hn'.
  assert (e0 = e) as -> by congruence. assert (n = n') by congruence. lia.
Qed.

Lemma counters_same_other db db' key :
  db' !! key = db !! key → counters_same db db' key.
Proof. intros Heq e' He'. exists e'. split; [congruence | done]. Qed.

Lemma counters_same_untouched now db tid m :
  untouched m →
  is_Some (Redis.find now db (_get_key tid)) →
  counters_same db (Redis.hset now db (_get_key tid) m) (_get_key tid).
Proof.
  intros Hm [e He] e'. rewrite lookup_hset_eq. unfold Redis.hgetall.
  rewrite He. intros [= <-]. simpl. exists e.
  split; [by apply (find_Some_lookup now)|].
  intros k Hk. apply hcount_union_untouched. by apply counters3_untouched.
Qed.

Lemma snapshot_current_same db db' r :
  counters_same db db' (_get_key (r_task_id r)) →
  snapshot_current db r → snapshot_current db' r.
Proof.
  intros Hs. unfold snapshot_current.
  destruct (r_pc r); try done. intros Hsnap e' He' k Hk.
  destruct (Hs _ He') as (e&He&Heq). rewrite (Heq _ Hk). by apply (Hsnap e).
Qed.

Lemma store_kept_live now ids db tid :
  now < 86400 → store_kept ids db → tid ∈ ids →
  ∃ e, db !! _get_key tid = Some e ∧
       Redis.find now db (_get_key tid) = Some e.
Proof.
  intros Hnow [Hdb Hids] Hin. destruct (Hids _ Hin) as [e He].
  destruct (Hdb _ _ He) as (tid'&d&_&_&_&Hd&Hle).
  exists e. split; [done|]. unfold Redis.find, Redis.live. rewrite He, Hd.
  by rewrite (proj2 (Z.ltb_lt _ _)) by lia.
Qed.

Lemma hcount_progress now iteration total successful failed stats
    (h : gmap string rval) :
  hcount (to_redis (progress_dict now iteration total successful failed stats)
            ∪ h) "total_requests" = Some total ∧
  hcount (to_redis (progress_dict now iteration total successful failed stats)
            ∪ h) "successful_requests" = Some successful ∧
  hcount (to_redis (progress_dict now iteration total successful failed stats)
            ∪ h) "failed_requests" = Some failed.
Proof.
  unfold hcount. repeat split.
  - by rewrite (lookup_union_Some_l _ _ _ (RInt total)).
  - by rewrite (lookup_union_Some_l _ _ _ (RInt successful)).
  - by rewrite (lookup_union_Some_l _ _ _ (RInt failed)).
Qed.

Lemma runner_step_counters ev now evs r db act e :
  store_total db →
  db !! _get_key (r_task_id r) = Some e →
  Redis.find now db (_get_key (r_task_id r)) = Some e →
  snapshot_current db r →
  counters_grow db (_run_task_step ev now evs r db act).1.2
    (_get_key (r_task_id r)) ∧
  snapshot_current (_run_task_step ev now evs r db act).1.2
    (_run_task_step ev now evs r db act).1.1.
Proof.
  intros Htotal He Hf Hsnap.
  assert (∀ m, untouched m →
            counters_grow db
              (Redis.hset now db (_get_key (r_task_id r)) m)
              (_get_key (r_task_id r)))
    as Hsame.
  { intros m Hm. apply counters_same_grow, counters_same_untouched; [|by eexists].
    done. }
  assert (counters_grow db db (_get_key (r_task_id r))) as Hrefl
    by apply counters_same_grow, counters_same_refl.
  unfold _run_task_step, snapshot_current in *.
  destruct (r_pc r) as [| | |rest|svc rest|rest resp|rest resp task|rest|e0|p| |e0]
    eqn:Hpc; simpl.
  - destruct ev; simpl; split; try done;
      unfold update_task; apply Hsame, untouched_status_started.
  - by destruct ev.
  - by destruct (is_set evs (r_stop_event r)).
  - destruct rest; [done|]. by destruct (is_set evs (r_stop_event r)).
  - destruct ev as [|o|e1]; simpl; rewrite ?Hpc; try done.
    by destruct (count_response svc (send_request svc o) (r_services_stats r)).
  - assert (get_task now db (r_task_id r)
            = Ok (Some (map_imap parse_field (Redis.e_hash e))) ∨
            (∃ e1, get_task now db (r_task_id r) = Raise e1) ∨
            get_task now db (r_task_id r) = Ok None) as Hget.
    { unfold get_task, Redis.hgetall. rewrite Hf.
      repeat case_bool_decide; eauto. }
    assert (∀ e2, db !! _get_key (r_task_id r) = Some e2 →
              ∀ k, k ∈ counters3 →
                ∃ n, hcount (Redis.e_hash e2) k = Some n ∧
                     get_or (map_imap parse_field (Redis.e_hash e)) k (PInt 0)
                     = PInt n) as Hnew.
    { intros e2 He2 k Hk. assert (e2 = e) as -> by congruence.
      destruct (Htotal _ _ He) as (t&s&f&Ht&Hs&Hf'&_).
      unfold counters3 in Hk.
      apply elem_of_cons in Hk as [->|Hk]; [exists t|
      apply elem_of_cons in Hk as [->|Hk]; [exists s|
      apply list_elem_of_singleton in Hk as ->; exists f]];
        (split; [done|]; apply parsed_counter; [|done];
         repeat first [apply list_elem_of_here | apply list_elem_of_further]). }
    destruct ev; simpl; try done;
      destruct Hget as [->|[[e1 ->]| ->]]; by simpl.
  - destruct (Hsnap _ He "total_requests") as (t&Hht&Ht);
      [unfold counters3; set_solver|].
    destruct (Hsnap _ He "successful_requests") as (s&Hhs&Hs);
      [unfold counters3; set_solver|].
    destruct (Hsnap _ He "failed_requests") as (f&Hhf&Hf');
      [unfold counters3; set_solver|].
    rewrite (progress_update_dict _ _ _ _ _ t s f) by done.
    destruct ev; simpl; try done; (split; [|done]);
      (intros e1 e' k n n' He1 He' Hk Hn Hn';
       assert (e1 = e) as -> by congruence;
       unfold update_task in He'; rewrite lookup_hset_eq in He';
       injection He' as <-; simpl in Hn';
       unfold Redis.hgetall in Hn'; rewrite Hf in Hn';
       destruct (hcount_progress now (r_iteration r) (t + 1)
                   (s + if success resp then 1 else 0)
                   (f + if success resp then 0 else 1)
                   (r_services_stats r) (Redis.e_hash e)) as (H1&H2&H3);
       unfold counters3 in Hk;
       apply elem_of_cons in Hk as [->|Hk];
         [|apply elem_of_cons in Hk as [->|Hk];
           [|apply list_elem_of_singleton in Hk as ->]];
       [rewrite H1 in Hn' | rewrite H2 in Hn' | rewrite H3 in Hn'];
       injection Hn' as <-;
       destruct (success resp); congruence || (simplify_eq; lia)).
  - done.
  - destruct ev; simpl; split; try done;
      unfold update_task; apply Hsame, untouched_error.
  - by destruct p.
  - by rewrite Hpc.
  - by rewrite Hpc.
Qed.

Lemma store_kept_key ids db key e :
  store_kept ids db → db !! key = Some e →
  ∃ tid, key = _get_key tid ∧ tid ∈ ids.
Proof.
  intros [Hdb _] He. destruct (Hdb _ _ He) as (tid&d&?&?&_). by exists tid.
Qed.

Lemma thread_id_in σ i r :
  threads σ !! i = Some r → r_task_id r ∈ task_ids σ.
Proof.
  intros Hi. unfold task_ids. apply list_elem_of_fmap. exists r.
  split; [done|]. by eapply list_elem_of_lookup_2.
Qed.

Lemma start_task_threads uid ph iv σ :
  threads (start_task uid ph iv σ).1 =
    threads σ ++
    [{| r_task_id := generate_task_id uid; r_phone_number := ph;
        r_interval := iv; r_stop_event := length (events σ);
        r_iteration := 0; r_services_stats := ∅;
        r_total_requests := 0; r_successful := 0; r_failed := 0;
        r_pc := AtStart |}].
Proof. done. Qed.

Lemma start_task_other uid ph iv σ key :
  key ≠ _get_key (generate_task_id uid) →
  redis (start_task uid ph iv σ).1 !! key = redis σ !! key.
Proof.
  intros Hne.
  assert (redis (start_task uid ph iv σ).1
          = (create_task (clock σ) (redis σ) (generate_task_id uid) ph iv).1)
    as -> by done.
  unfold create_task. simpl.
  rewrite lookup_expire_ne by done. by rewrite lookup_hset_ne.
Qed.

Lemma step_mono σ l :
  Mono σ → is_delete l = false → clock (step σ l) < 86400 →
  (∀ uid ph iv, l = Start uid ph iv → generate_task_id uid ∉ task_ids σ) →
  Mono (step σ l) ∧
  ∀ key, counters_grow (redis σ) (redis (step σ l)) key.
Proof.
  intros (Hnd&Hkept&Htot&Hsnap) Hl Hnow Hfresh.
  assert (NoDup (task_ids (step σ l))) as Hnd'.
  { rewrite task_ids_step. destruct l as [dt|uid ph iv|tid|tid|i ev]; simpl;
      rewrite ?(right_id_L [] (++)); try done.
    apply NoDup_app. split; [done|]. split; [|apply NoDup_singleton].
    intros x Hx ->%list_elem_of_singleton. by eapply Hfresh. }
  pose proof (step_kept σ l Hkept Hl Hnow) as Hkept'.
  pose proof (step_total σ l Htot) as Htot'.
  assert (clock σ < 86400) as Hnow0
    by (pose proof (step_clock_le σ l); lia).
  destruct Hkept as [Hclock Hdb]. destruct Htot as [Hst _].
  cut (Forall (snapshot_current (redis (step σ l))) (threads (step σ l)) ∧
       ∀ key, counters_grow (redis σ) (redis (step σ l)) key).
  { intros [Hs Hg]. split; [|exact Hg].
    split; [exact Hnd'|]. split; [exact Hkept'|]. split; [exact Htot'|].
    exact Hs. }
  destruct l as [dt|uid ph iv|tid|tid|i ev]; cbn [step] in *.
  - split; [done|]. intros key. apply counters_same_grow, counters_same_refl.
  - (* start_task: a new key *)
    specialize (Hfresh uid ph iv eq_refl).
    assert (∀ key, is_Some (redis σ !! key) →
              redis (start_task uid ph iv σ).1 !! key = redis σ !! key)
      as Hother.
    { intros key [e He].
      destruct (store_kept_key _ _ _ _ Hdb He) as (tid&->&Hin).
      apply start_task_other. intros Heq. apply _get_key_inj in Heq.
      congruence. }
    split.
    + rewrite start_task_threads. apply Forall_app. split; [|by apply Forall_singleton].
      apply Forall_forall. intros r Hr.
      apply list_elem_of_lookup in Hr as [j Hj].
      pose proof (proj1 (Forall_lookup _ _) Hsnap j r Hj) as Hsr.
      revert Hsr. apply snapshot_current_same, counters_same_other, Hother.
      apply (proj2 Hdb). by eapply thread_id_in.
    + intros key e e' k n n' He He'. rewrite Hother in He' by by eexists.
      assert (e' = e) as -> by congruence. intros _ Hn Hn'.
      assert (n = n') by congruence. lia.
  - (* stop_task *)
    assert (∀ key, counters_same (redis σ) (redis (stop_task tid σ).1) key)
      as Hsame.
    { intros key. destruct (stop_task_redis tid σ) as [->|[Hf ->]];
        [apply counters_same_refl|].
      destruct (decide (_get_key tid = key)) as [<-|Hne].
      - apply counters_same_untouched; [apply untouched_stopped | done].
      - apply counters_same_other. unfold update_task.
        by rewrite lookup_hset_ne. }
    rewrite stop_task_threads. split.
    + eapply Forall_impl; [exact Hsnap|]. intros r.
      apply snapshot_current_same, Hsame.
    + intros key. apply counters_same_grow, Hsame.
  - (* a delete: not in these traces *)
    done.
  - (* a Runner step *)
    unfold run_thread in *. destruct (threads σ !! i) as [r|] eqn:Hi.
    2:{ split; [done|]. intros key.
        apply counters_same_grow, counters_same_refl. }
    destruct (store_kept_live (clock σ) _ _ (r_task_id r) Hnow0 Hdb
                (thread_id_in σ i r Hi)) as (e&He&Hf).
    pose proof (proj1 (Forall_lookup _ _) Hsnap i r Hi) as Hsr.
    pose proof (runner_step_counters ev (clock σ) (events σ) r (redis σ)
                  (active_tasks σ) e Hst He Hf Hsr) as [Hgrow Hsnap'].
    pose proof (runner_step_other_keys ev (clock σ) (events σ) r (redis σ)
                  (active_tasks σ)) as Hother.
    destruct (_run_task_step ev (clock σ) (events σ) r (redis σ)
                (active_tasks σ)) as [[r' db'] act']. simpl in *.
    split.
    + apply Forall_lookup. intros j rj Hj.
      destruct (decide (i = j)) as [<-|Hne].
      * rewrite list_lookup_insert_eq in Hj by by eapply lookup_lt_Some.
        by injection Hj as <-.
      * rewrite list_lookup_insert_ne in Hj by done.
        pose proof (proj1 (Forall_lookup _ _) Hsnap j rj Hj) as Hsj.
        revert Hsj. apply snapshot_current_same, counters_same_other, Hother.
        intros Heq. apply _get_key_inj in Heq. apply Hne.
        eapply (NoDup_lookup (task_ids σ)); [done| |];
          unfold task_ids; rewrite list_lookup_fmap.
        -- by rewrite Hi.
        -- rewrite Hj. simpl. congruence.
    + intros key. destruct (decide (key = _get_key (r_task_id r)))
        as [->|Hne]; [done|].
      apply counters_same_grow, counters_same_other. by apply Hother.
Qed.

Lemma Mono_initial : Mono initial.
Proof.
  split; [apply NoDup_nil_2|]. split; [apply Kept_initial|].
  split; [apply InvT_initial | apply Forall_nil_2].
Qed.

Lemma exec_mono tr : ∀ σ,
  Mono σ → Forall (λ l, is_delete l = false) tr →
  clock (exec tr σ) < 86400 →
  NoDup (task_ids σ ++ started tr) →
  Mono (exec tr σ) ∧
  ∀ key e e' k n n',
    redis σ !! key = Some e → redis (exec tr σ) !! key = Some e' →
    k ∈ counters3 →
    hcount (Redis.e_hash e) k = Some n → hcount (Redis.e_hash e') k = Some n' →
    n ≤ n'.
Proof.
  induction tr as [|l tr IH]; intros σ Hσ Htr Hnow Hnd.
  - split; [done|]. intros key e e' k n n' He He' _ Hn Hn'. simpl in He'.
    assert (e' = e) as -> by congruence. assert (n = n') by congruence. lia.
  - apply Forall_cons in Htr as [Hl Htr]. simpl in *.
    assert (clock (step σ l) < 86400) as Hnow1
      by (pose proof (exec_clock_le tr (step σ l)); lia).
    destruct (step_mono σ l Hσ Hl Hnow1) as [Hσ1 Hgrow1].
    { intros uid ph iv ->. simpl in Hnd.
      apply NoDup_app in Hnd as (_&Hnd&_). intros Hin.
      apply (Hnd _ Hin). by left. }
    destruct (IH (step σ l) Hσ1 Htr Hnow) as [Hσ' Hgrow].
    { rewrite task_ids_step, <- (assoc_L (++)).
      replace (started [l] ++ started tr) with (started (l :: tr)); [done|].
      by destruct l. }
    split; [done|]. intros key e e' k n n' He He' Hk Hn Hn'.
    (* the record after the first step *)
    destruct Hσ as (_&[_ Hdb]&_). destruct Hσ1 as (_&[_ Hdb1]&[Hst1 _]&_).
    destruct (store_kept_key _ _ _ _ Hdb He) as (tid&->&Hin).
    destruct (proj2 Hdb1 tid) as [e1 He1].
    { rewrite task_ids_step. apply elem_of_app. by left. }
    destruct (Hst1 _ _ He1) as (t&s&f&Ht&Hs&Hf&_).
    assert (∃ n1, hcount (Redis.e_hash e1) k = Some n1) as [n1 Hn1].
    { unfold counters3 in Hk.
      apply elem_of_cons in Hk as [->|Hk]; [by eexists|].
      apply elem_of_cons in Hk as [->|Hk]; [by eexists|].
      apply list_elem_of_singleton in Hk as ->. by eexists. }
    pose proof (Hgrow1 _ _ _ _ _ _ He He1 Hk Hn Hn1).
    pose proof (Hgrow _ _ _ _ _ _ He1 He' Hk Hn1 Hn'). lia.
Qed.

(** X24.  During the first 24 hours of the process, as long as nothing
    is deleted and no task id is drawn twice, the counters of a record
    never go down: [total_requests], [successful_requests] and
    [failed_requests] read from a task's record are at most what they
    are read at any later moment. *)
Theorem counters_never_decrease (tr tr' : list label) (task_id k : string)
    (task task' : gmap string pyval) :
  NoDup (started (tr ++ tr')) →
  Forall (λ l, is_delete l = false) (tr ++ tr') →
  clock (exec (tr ++ tr') initial) < 86400 →
  get_task (clock (exec tr initial)) (redis (exec tr initial)) task_id
    = Ok (Some task) →
  get_task (clock (exec (tr ++ tr') initial))
    (redis (exec (tr ++ tr') initial)) task_id = Ok (Some task') →
  k ∈ counters3 →
  ∃ n n', get_or task k (PInt 0) = PInt n ∧
          get_or task' k (PInt 0) = PInt n' ∧
          n ≤ n'.
Proof.
  intros Hnd Htr Hnow Hget Hget' Hk.
  assert (exec (tr ++ tr') initial = exec tr' (exec tr initial)) as Happ
    by (unfold exec; by rewrite foldl_app).
  rewrite Happ in *.
  rewrite started_app in Hnd. apply Forall_app in Htr as [Htr Htr'].
  assert (clock (exec tr initial) < 86400) as Hnow0
    by (pose proof (exec_clock_le tr' (exec tr initial)); lia).
  destruct (exec_mono tr initial Mono_initial Htr Hnow0) as [Hσ _].
  { by apply NoDup_app in Hnd as [? _]. }
  destruct (exec_mono tr' (exec tr initial) Hσ Htr' Hnow) as [Hσ' Hgrow].
  { by rewrite task_ids_exec. }
  apply get_task_Some in Hget as (e&He&_&_&->).
  apply get_task_Some in Hget' as (e'&He'&_&_&->).
  apply find_Some_lookup in He, He'.
  destruct Hσ as (_&_&[Hst _]&_). destruct Hσ' as (_&_&[Hst' _]&_).
  destruct (Hst _ _ He) as (t&s&f&Ht&Hs&Hf&_).
  destruct (Hst' _ _ He') as (t'&s'&f'&Ht'&Hs'&Hf'&_).
  assert (k ∈ ["total_requests"; "successful_requests"; "failed_requests"])
    as Hk' by done.
  unfold counters3 in Hk.
  apply elem_of_cons in Hk as [->|Hk]; [exists t, t'|
  apply elem_of_cons in Hk as [->|Hk]; [exists s, s'|
  apply list_elem_of_singleton in Hk as ->; exists f, f']];
    (split; [by apply parsed_counter|]; split; [by apply parsed_counter|];
     by eapply (Hgrow _ e e')).
Qed.

(* ------------------------------------------------------------------ *)
(** ** The further properties at the sample runs *)
(* ------------------------------------------------------------------ *)

Lemma find_empty now key : Redis.find now ∅ key = None.
Proof. unfold Redis.find. by rewrite lookup_empty. Qed.

Lemma storable_running : storable "status" (PStr "running").
Proof. by exists (PStr "running"). Qed.

Lemma update_then_get_witness :
  ∃ task',
    get_task (clock sigma_pending)
      (update_task (clock sigma_pending) (redis sigma_pending) tid1
         {["status" := PStr "running"]}) tid1 = Ok (Some task') ∧
    task' !! "status" = read_back "status" (PStr "running") ∧
    task' !! "phone_number" = task_pending !! "phone_number".
Proof.
  destruct (update_then_get (clock sigma_pending) (redis sigma_pending) tid1
              {["status" := PStr "running"]} task_pending)
    as (task'&Hget&Hnew&Hold&_).
  - exact get_task_pending.
  - apply map_non_empty_singleton.
  - apply map_Forall_singleton, storable_running.
  - exists task'. split; [exact Hget|]. split.
    + apply Hnew, lookup_singleton_eq.
    + apply Hold, lookup_singleton_ne. discriminate.
Defined.

Lemma update_creates_witness :
  ∃ task',
    (∀ later,
       get_task later (update_task 0 ∅ tid1 {["status" := PStr "running"]})
         tid1 = Ok (Some task')) ∧
    (∀ k, task' !! k
          = ({["status" := PStr "running"]} : gmap string pyval) !! k
              ≫= read_back k).
Proof.
  apply (update_creates 0 ∅ tid1 {["status" := PStr "running"]}).
  - apply find_empty.
  - apply map_non_empty_singleton.
  - apply map_Forall_singleton, storable_running.
Defined.


Lemma get_all_tasks_lists_records_witness :
  let σ := exec run1 initial in
  ∃ ids,
    Redis.keys (clock σ) (redis σ) task_prefix = _get_key <$> ids ∧
    NoDup ids ∧
    (∀ task_id,
       task_id ∈ ids ↔
       is_Some (Redis.find (clock σ) (redis σ) (_get_key task_id))) ∧
    RedisManager.get_all_tasks (clock σ) (redis σ)
      = Ok (omap (record (clock σ) (redis σ)) ids).
Proof.
  intros σ. destruct (exec_fine run1 initial Fine_initial) as [Hdb _].
  fold σ in Hdb. apply get_all_tasks_lists_records.
  - intros tid [e He]. apply find_Some_lookup in He.
    destruct (Hdb _ _ He) as [_ [uid Huid]].
    apply _get_key_inj in Huid as ->. apply generate_task_id_no_prefix.
  - by apply store_fine_readable.
Defined.

Lemma get_task_run1 :
  get_task (clock (exec run1 initial)) (redis (exec run1 initial)) tid1
    = Ok (Some task_running).
Proof. by_evaluation. Qed.

Lemma status_never_completed_witness :
  PStr "running" ∈ PStr <$> written_statuses ∧
  PStr "running" ≠ PStr (status_value COMPLETED).
Proof.
  apply (status_never_completed run1 tid1 (clock (exec run1 initial))
           task_running).
  - exact get_task_run1.
  - by_evaluation.
Defined.


Lemma stop_task_reaches_runner_witness :
  threads (stop_task tid1 (exec run1 initial)).1 !! 0%nat
    = Some runner_waiting ∧
  (done_pc (r_pc runner_waiting) = true ∨
   is_set (events (stop_task tid1 (exec run1 initial)).1)
     (r_stop_event runner_waiting) = true).
Proof.
  apply (stop_task_reaches_runner run1 tid1 0 runner_waiting).
  - apply NoDup_singleton.
  - by_evaluation.
  - by_evaluation.
  - reflexivity.
Defined.

Lemma reused_id_unstoppable_witness :
  is_set (events (exec [Start uid2 "9123456780" 5; Stop tid1] sigma_running))
    0 = false ∧
  ∀ tid,
    active_tasks (exec [Start uid2 "9123456780" 5; Stop tid1] sigma_running)
      !! tid ≠ Some 0%nat.
Proof.
  assert (active_tasks sigma_running = {[tid1 := 0%nat]}) as Hact
    by by_evaluation.
  assert (events sigma_running = [false]) as Hev by by_evaluation.
  apply (reused_id_unstoppable sigma_running uid2 "9123456780" 5 0 [Stop tid1]).
  - by_evaluation.
  - rewrite Hact. intros tid [<- _]%lookup_singleton_Some. reflexivity.
  - rewrite Hev. simpl. lia.
  - rewrite Hev. reflexivity.
Defined.

Lemma stop_event_ends_runner_witness :
  ∃ r', threads (exec run_http sigma_cancelled) !! 0%nat = Some r' ∧
        done_pc (r_pc r') = true ∧
        (counting (r_pc runner_cancelled) = false →
         counted r' = counted runner_cancelled).
Proof.
  apply (stop_event_ends_runner sigma_cancelled 0 runner_cancelled run_http).
  - by_evaluation.
  - by_evaluation.
  - vm_compute. lia.
Defined.

Lemma write_after_delete_breaks_listing_witness :
  ∃ task,
    (∀ later,
       get_task later (redis (run_thread 0 Quiet sigma_deleted)) tid1
         = Ok (Some task)) ∧
    task !! "task_id" = None ∧
    task !! "phone_number" = None ∧
    task !! "created_at" = None ∧
    ∀ dt, ∃ e,
      TaskManager.get_all_tasks
        (step (run_thread 0 Quiet sigma_deleted) (Tick dt)) = Raise e.
Proof.
  apply (write_after_delete_breaks_listing sigma_deleted 0 runner_starting
           Quiet).
  - by_evaluation.
  - by_evaluation.
  - assert (redis sigma_deleted !! _get_key tid1 = None) as Hgone
      by by_evaluation.
    assert (is_Some (redis (run_thread 0 Quiet sigma_deleted) !! _get_key tid1))
      as [e He].
    { eapply bool_decide_eq_true_1. by_evaluation. }
    intros Heq. rewrite Heq in He. congruence.
  - apply (generate_task_id_no_prefix uid1).
Defined.


Lemma expired_task_unstoppable_witness :
  let σ' := exec [Stop tid1; Run 0 Quiet] (exec run_expired initial) in
  stop_task tid1 σ' = (σ', Ok (NotFound tid1)) ∧
  is_set (events σ') 0 = false ∧
  ∃ r', threads σ' !! 0%nat = Some r' ∧ looping (r_pc r') = true.
Proof.
  apply (expired_task_unstoppable run_expired [Stop tid1; Run 0 Quiet] 0
           runner_waiting).
  - apply NoDup_singleton.
  - by repeat constructor.
  - by_evaluation.
  - reflexivity.
  - by_evaluation.
  - by_evaluation.
Defined.

Lemma runner_pass_witness :
  let o := Returned 200 "ok" in
  let slow := Raised TimeoutException "slow" in
  ∃ r' db' task' t s f,
    _run_task_steps (pass_envs o slow o) (clock sigma_pending) [false]
      (set_pc AtWhile runner_sending) (redis sigma_pending) ∅ = (r', db', ∅) ∧
    r_pc r' = AtWhile ∧
    r_iteration r' = 1 + 1 ∧
    r_total_requests r' = 3 ∧ r_successful r' = 2 ∧ r_failed r' = 3 - 2 ∧
    sum_success (r_services_stats r') = sum_success init_stats + 2 ∧
    sum_failed (r_services_stats r') = sum_failed init_stats + (3 - 2) ∧
    get_or task_pending "total_requests" (PInt 0) = PInt t ∧
    get_or task_pending "successful_requests" (PInt 0) = PInt s ∧
    get_or task_pending "failed_requests" (PInt 0) = PInt f ∧
    get_task (clock sigma_pending) db' tid1 = Ok (Some task') ∧
    task' !! "iterations" = Some (PInt (1 + 1)) ∧
    task' !! "total_requests" = Some (PInt (t + 3)) ∧
    task' !! "successful_requests" = Some (PInt (s + 2)) ∧
    task' !! "failed_requests" = Some (PInt (f + (3 - 2))) ∧
    task' !! "services_stats" = Some (PDict (r_services_stats r')) ∧
    task' !! "status" = task_pending !! "status".
Proof.
  intros o slow.
  apply (runner_pass (clock sigma_pending) [false]
           (set_pc AtWhile runner_sending) (redis sigma_pending) ∅ o slow o
           task_pending).
  - reflexivity.
  - reflexivity.
  - apply complete_init.
  - exact get_task_pending.
Defined.


Lemma step_frame_witness :
  get_task 5 (redis (step sigma_running (Stop tid1))) "taskid-89ab-cdef"
    = get_task 5 (redis sigma_running) "taskid-89ab-cdef".
Proof.
  apply (step_frame sigma_running (Stop tid1) "taskid-89ab-cdef" 5).
  simpl. discriminate.
Defined.

Lemma counters_never_decrease_witness :
  ∃ n n', get_or task_pending "total_requests" (PInt 0) = PInt n ∧
          get_or task_running "total_requests" (PInt 0) = PInt n' ∧
          n ≤ n'.
Proof.
  assert (clock (exec ([Start uid1 "9876543210" 10] ++ tail run1) initial) = 0)
    as Hclock by by_evaluation.
  apply (counters_never_decrease [Start uid1 "9876543210" 10] (tail run1)
           tid1 "total_requests" task_pending task_running).
  - apply NoDup_singleton.
  - by repeat constructor.
  - rewrite Hclock. lia.
  - by_evaluation.
  - by_evaluation.
  - apply list_elem_of_here.
Defined.
